(** * KalpaSETU gateway: a shallow embedding of the gateway threads

    The development follows the Python sources of the gateway:
    [processing_thread.py] (packet decoding, persistence, alert rules and
    the priority loop), [communications_thread.py] (modem dialogue and the
    batched upload), [archive.py] (archive and purge), [spi_lock.py] (the
    bus lock) and [worker_threads.py] (the two radio workers).

    Conventions.  Python exceptions are values of [exn] carried by
    [result]; what the environment decides (the clock, a failing SQLite
    call, the lines a modem sends back, a radio that has a packet) is an
    explicit argument of the function that consumes it; log lines are
    kept with their level and the fixed part of their text.  A Python
    [float] that goes into the store is a binary64 value
    ([PrimFloat.float]) and its division the IEEE division; readings of
    the clock, which are only subtracted and compared, are rationals. *)

From Stdlib Require Import Floats.
From Stdlib Require Import ZArith QArith Lqa String Ascii List Lia Bool.
From Stdlib.Strings Require Import Byte.
From stdpp Require Import base list strings gmap pretty sorting.

Local Open Scope string_scope.
Local Open Scope list_scope.
Local Open Scope Z_scope.

#[local] Set Warnings "-clear-no-such-hyp".

(* ================================================================== *)
(** * Part I. The model                                                *)
(* ================================================================== *)

(** ** Exceptions, results, logging *)

Inductive exn : Type :=
| StructError      (* struct.error *)
| SqliteError      (* sqlite3.Error *)
| QueueFull        (* queue.Full *)
| QueueEmpty       (* queue.Empty *)
| KeyError
| IndexError
| ValueError
| OSError
| AttributeError
| RadioError.      (* anything a radio driver call raises *)

Inductive result (A : Type) : Type :=
| Ok (a : A)
| Raise (e : exn).
Arguments Ok {A} a.
Arguments Raise {A} e.

Definition is_ok {A} (r : result A) : bool :=
  match r with Ok _ => true | Raise _ => false end.

Inductive level : Type := DEBUG | INFO | WARNING | ERROR | CRITICAL.

Record log_record : Type := Log { lvl : level; msg : string }.

Definition logged (l : level) (lg : list log_record) : Prop :=
  ∃ m, Log l m ∈ lg.

(** ** [queue.Queue]: a bounded FIFO *)

Record pqueue (A : Type) : Type := Queue { items : list A; maxsize : nat }.
Arguments Queue {A} items maxsize.
Arguments items {A} _.
Arguments maxsize {A} _.

Definition q_empty {A} (q : pqueue A) : bool :=
  match items q with [] => true | _ => false end.

Definition q_full {A} (q : pqueue A) : bool :=
  (0 <? maxsize q)%nat && (maxsize q <=? length (items q))%nat.

(** [put(item, block=False)] *)
Definition put_nowait {A} (q : pqueue A) (x : A) : result (pqueue A) :=
  if q_full q then Raise QueueFull
  else Ok (Queue (items q ++ [x]) (maxsize q)).

(** [get_nowait()] *)
Definition get_nowait {A} (q : pqueue A) : result (A * pqueue A) :=
  match items q with
  | [] => Raise QueueEmpty
  | x :: rest => Ok (x, Queue rest (maxsize q))
  end.

(** ** [struct.unpack] in little-endian standard mode *)

Abbreviation bytes := (list byte).

Inductive fmt_code : Type :=
| code_B    (* unsigned char,  1 byte  *)
| code_H    (* unsigned short, 2 bytes *)
| code_h    (* short,          2 bytes *)
| code_I    (* unsigned int,   4 bytes *)
| code_f.   (* float,          4 bytes *)

Definition code_size (c : fmt_code) : nat :=
  match c with
  | code_B => 1
  | code_H | code_h => 2
  | code_I | code_f => 4
  end%nat.

(** The characters after the byte-order mark; blanks between codes are
    ignored, as [struct] does. *)
Fixpoint parse_codes (s : string) : option (list fmt_code) :=
  match s with
  | EmptyString => Some []
  | String c s' =>
      let rest := parse_codes s' in
      if Ascii.eqb c " " then rest
      else if Ascii.eqb c "B" then cons code_B <$> rest
      else if Ascii.eqb c "H" then cons code_H <$> rest
      else if Ascii.eqb c "h" then cons code_h <$> rest
      else if Ascii.eqb c "I" then cons code_I <$> rest
      else if Ascii.eqb c "f" then cons code_f <$> rest
      else None
  end.

Definition parse_fmt (fmt : string) : option (list fmt_code) :=
  match fmt with
  | String c s' => if Ascii.eqb c "<" then parse_codes s' else None
  | EmptyString => None
  end.

Definition calcsize (codes : list fmt_code) : nat :=
  foldr (λ c n, code_size c + n)%nat 0%nat codes.

Definition byte_val (b : byte) : Z := Z.of_N (Byte.to_N b).

(** Little-endian unsigned value of a run of bytes. *)
Fixpoint le_uint (bs : bytes) : Z :=
  match bs with
  | [] => 0
  | b :: bs' => byte_val b + 256 * le_uint bs'
  end.

(** Two's complement reading of a [w]-bit unsigned value. *)
Definition to_signed (w : Z) (u : Z) : Z :=
  if u <? 2 ^ (w - 1) then u else u - 2 ^ w.

(** What [unpack] hands back: integers, and floats kept as their 32 raw
    bits (the gateway never looks at a float field). *)
Inductive pyval : Type :=
| PyInt (z : Z)
| PyFloat32 (raw : Z).

Definition decode_field (c : fmt_code) (bs : bytes) : pyval :=
  match c with
  | code_B | code_H | code_I => PyInt (le_uint bs)
  | code_h => PyInt (to_signed 16 (le_uint bs))
  | code_f => PyFloat32 (le_uint bs)
  end.

Fixpoint unpack_fields (codes : list fmt_code) (buffer : bytes) : list pyval :=
  match codes with
  | [] => []
  | c :: codes' =>
      decode_field c (take (code_size c) buffer)
        :: unpack_fields codes' (drop (code_size c) buffer)
  end.

(** [struct.unpack(fmt, buffer)]: the buffer must have exactly the size
    the format calls for. *)
Definition struct_unpack (fmt : string) (buffer : bytes) : result (list pyval) :=
  match parse_fmt fmt with
  | None => Raise StructError
  | Some codes =>
      if Nat.eqb (length buffer) (calcsize codes)
      then Ok (unpack_fields codes buffer)
      else Raise StructError
  end.

(** ** [str.format] with keyword arguments

    Templates made of literal text, doubled braces and named fields
    [{name}]; a field that names no keyword raises [KeyError], an empty
    field [IndexError], a lone brace [ValueError]. *)

Fixpoint kw_lookup (kw : list (string * string)) (name : string) : option string :=
  match kw with
  | [] => None
  | (k, v) :: kw' => if String.eqb k name then Some v else kw_lookup kw' name
  end.

Definition prepend (s : string) (r : result string) : result string :=
  match r with Ok t => Ok (s +:+ t) | Raise e => Raise e end.

Fixpoint format_go (kw : list (string * string)) (s : string)
    (field : option string) : result string :=
  match s with
  | EmptyString =>
      match field with None => Ok "" | Some _ => Raise ValueError end
  | String c s' =>
      match field with
      | Some name =>
          if Ascii.eqb c "}" then
            if String.eqb name "" then Raise IndexError
            else match kw_lookup kw name with
                 | Some v => prepend v (format_go kw s' None)
                 | None => Raise KeyError
                 end
          else if Ascii.eqb c "{" then Raise ValueError
          else format_go kw s' (Some (name +:+ String c ""))
      | None =>
          if Ascii.eqb c "{" then
            match s' with
            | String c' s'' =>
                if Ascii.eqb c' "{" then prepend "{" (format_go kw s'' None)
                else format_go kw s' (Some "")
            | EmptyString => Raise ValueError
            end
          else if Ascii.eqb c "}" then
            match s' with
            | String c' s'' =>
                if Ascii.eqb c' "}" then prepend "}" (format_go kw s'' None)
                else Raise ValueError
            | EmptyString => Raise ValueError
            end
          else prepend (String c "") (format_go kw s' None)
      end
  end.

Definition py_format (template : string) (kw : list (string * string)) : result string :=
  format_go kw template None.

(** ** The durable store *)

Record fatigue_row : Type := FatigueRow {
  log_id : Z;
  timestamp : string;
  node_id : Z;
  bin_1_cycles : Z;
  bin_2_cycles : Z;
  bin_3_cycles : Z;
  sent_to_cloud : Z
}.

Record environment_row : Type := EnvironmentRow {
  env_log_id : Z;
  received_at : string;
  env_node_id : Z;
  temperature_c : float;
  humidity_rh : float
}.

(** A table keeps its rows in rowid order, as SQLite's table B-tree does,
    next to the AUTOINCREMENT counter of [sqlite_sequence]. *)
Record database : Type := Database {
  fatigue_log : list fatigue_row;
  fatigue_seq : Z;
  environment_log : list environment_row;
  environment_seq : Z
}.

(** A connection sees its own uncommitted changes in [working];
    [committed] is what the file holds. *)
Record connection : Type := Connection {
  committed : database;
  working : database
}.

Definition connect (db : database) : connection := Connection db db.
Definition commit (c : connection) : connection :=
  Connection (working c) (working c).
Definition rollback (c : connection) : connection :=
  Connection (committed c) (committed c).

(** Which SQLite call fails, if any, while a packet (an upload, a purge)
    is handled.  With [ConnectionUnusable] the statement raises and so
    does every later [commit()] and [rollback()] on the connection:
    [sqlite3] raises [ProgrammingError] (a [sqlite3.Error]) on every call
    on a connection used from another thread than the one that made it,
    and on a closed one.  [DataProcessingThread] makes its connection in
    [__init__], which [main] calls, and uses it in [run], on the thread's
    own thread. *)
Inductive db_fault : Type :=
| NoFault
| ExecuteFails
| CommitFails
| ConnectionUnusable.

Global Instance db_fault_eq_dec : EqDecision db_fault.
Proof. solve_decision. Defined.

(** [float(n)], exact for the integers a double holds ([|n| < 2^53]). *)
Definition float_of_int (n : Z) : float :=
  if n <? 0 then PrimFloat.opp (PrimFloat.of_uint63 (Uint63.of_Z (- n)))
  else PrimFloat.of_uint63 (Uint63.of_Z n).

(** [n / d] for an [int] [n] and a [float] [d]. *)
Definition truediv (n : Z) (d : float) : float :=
  PrimFloat.div (float_of_int n) d.

(** The rational a finite double stands for, [±m·2^e]. *)
Definition float_value (f : float) : option Q :=
  match Prim2SF f with
  | S754_zero _ => Some 0%Q
  | S754_finite s m e =>
      let n := if s then Z.neg m else Z.pos m in
      Some (if 0 <=? e then (n * 2 ^ e) # 1 else n # Z.to_pos (2 ^ (- e)))
  | _ => None
  end.

(** Half a unit in the last place of a double below 1024: [2^-44]. *)
Definition half_ulp_1024 : Q := 1 # 17592186044416.

(** [d] is a finite double at most [half_ulp_1024] away from [q]. *)
Definition double_near (d : float) (q : Q) : bool :=
  match float_value d with
  | Some v => Qle_bool (- half_ulp_1024) (v - q) && Qle_bool (v - q) half_ulp_1024
  | None => false
  end.

(** [f n && f (n + 1) && ...], [count] values. *)
Fixpoint all_from (f : Z → bool) (n : Z) (count : nat) : bool :=
  match count with
  | O => true
  | S k => f n && all_from f (n + 1) k
  end.

Definition insert_fatigue (now : string) (node b1 b2 b3 : Z) (db : database) : database :=
  let id := fatigue_seq db + 1 in
  Database (fatigue_log db ++ [FatigueRow id now node b1 b2 b3 0]) id
           (environment_log db) (environment_seq db).

Definition insert_environment (now : string) (node : Z) (t h : float) (db : database) : database :=
  let id := environment_seq db + 1 in
  Database (fatigue_log db) (fatigue_seq db)
           (environment_log db ++ [EnvironmentRow id now node t h]) id.

(** [cursor.execute(INSERT ...)] and [db_conn.commit()] under a fault. *)
Definition execute (fault : db_fault) (stmt : database → database)
    (c : connection) : result connection :=
  match fault with
  | ExecuteFails | ConnectionUnusable => Raise SqliteError
  | _ => Ok (Connection (committed c) (stmt (working c)))
  end.

Definition try_commit (fault : db_fault) (c : connection) : result connection :=
  match fault with
  | CommitFails | ConnectionUnusable => Raise SqliteError
  | _ => Ok (commit c)
  end.

(** [db_conn.rollback()] under a fault. *)
Definition try_rollback (fault : db_fault) (c : connection) : result connection :=
  match fault with
  | ConnectionUnusable => Raise SqliteError
  | _ => Ok (rollback c)
  end.

(** ** [processing_thread.py]: the data processor *)

(** An entry of [rules.yaml]. *)
Record rule : Type := Rule {
  rule_node_id : Z;
  field_to_monitor : string;
  threshold : Z;
  alert_message : string
}.

Record processor : Type := Processor {
  high_prio_q : pqueue bytes;
  low_prio_q : pqueue bytes;
  alert_q : pqueue string;
  rules : list rule;
  db_conn : connection;
  log : list log_record
}.

Definition logging (l : level) (m : string) (self : processor) : processor :=
  Processor (high_prio_q self) (low_prio_q self) (alert_q self) (rules self)
            (db_conn self) (log self ++ [Log l m]).

Definition set_db_conn (c : connection) (self : processor) : processor :=
  Processor (high_prio_q self) (low_prio_q self) (alert_q self) (rules self)
            c (log self).

Definition set_alert_q (q : pqueue string) (self : processor) : processor :=
  Processor (high_prio_q self) (low_prio_q self) q (rules self)
            (db_conn self) (log self).

Definition set_high_prio_q (q : pqueue bytes) (self : processor) : processor :=
  Processor q (low_prio_q self) (alert_q self) (rules self)
            (db_conn self) (log self).

Definition set_low_prio_q (q : pqueue bytes) (self : processor) : processor :=
  Processor (high_prio_q self) q (alert_q self) (rules self)
            (db_conn self) (log self).

(** The loop of [_check_alerting_rules] over the rules still to visit. *)
Fixpoint check_rules_from (rs : list rule) (node_id : Z) (data : gmap string Z)
    (self : processor) : processor * result unit :=
  match rs with
  | [] => (self, Ok tt)
  | rule :: rs' =>
      if rule_node_id rule =? node_id then
        match data !! field_to_monitor rule with
        | Some value =>
            if threshold rule <? value then
              match py_format (alert_message rule)
                      [("node", pretty node_id); ("value", pretty value);
                       ("threshold", pretty (threshold rule))] with
              | Raise e => (self, Raise e)
              | Ok alert_msg =>
                  match put_nowait (alert_q self) alert_msg with
                  | Ok q =>
                      check_rules_from rs' node_id data
                        (logging WARNING ("ALERT TRIGGERED: " +:+ alert_msg)
                           (set_alert_q q self))
                  | Raise _ =>
                      check_rules_from rs' node_id data
                        (logging ERROR "Alert queue is full. Cannot send new alert." self)
                  end
              end
            else check_rules_from rs' node_id data self
        | None => check_rules_from rs' node_id data self
        end
      else check_rules_from rs' node_id data self
  end.

Definition _check_alerting_rules (node_id : Z) (data : gmap string Z)
    (self : processor) : processor * result unit :=
  check_rules_from (rules self) node_id data self.

Definition fatigue_data (bin1 bin2 bin3 : Z) : gmap string Z :=
  <["bin_1_cycles" := bin1]> (<["bin_2_cycles" := bin2]> (<["bin_3_cycles" := bin3]> ∅)).

(** The handler [except sqlite3.Error]: the error is logged, then
    [rollback()] is called on the connection [c]; an exception it raises
    is raised inside the handler and leaves the function. *)
Definition except_sqlite_error (fault : db_fault) (c : connection) (m : string)
    (self : processor) : processor * result unit :=
  match try_rollback fault c with
  | Ok c' => (set_db_conn c' (logging ERROR m self), Ok tt)
  | Raise e => (logging ERROR m self, Raise e)
  end.

(** [now] is [datetime.utcnow().isoformat()], [fault] the SQLite call
    that fails while this packet is handled. *)
Definition _process_lora_packet (now : string) (fault : db_fault)
    (packet : bytes) (self : processor) : processor * result unit :=
  match struct_unpack "<H B III f f B" packet with
  | Raise _ => (logging ERROR "Failed to unpack LoRa packet" self, Ok tt)
  | Ok [PyInt node_id; _; PyInt bin1; PyInt bin2; PyInt bin3; _; _; _] =>
      match execute fault (insert_fatigue now node_id bin1 bin2 bin3) (db_conn self) with
      | Raise _ =>
          except_sqlite_error fault (db_conn self) "Database error for fatigue_log" self
      | Ok c =>
          match try_commit fault c with
          | Raise _ =>
              except_sqlite_error fault c "Database error for fatigue_log" self
          | Ok c' =>
              _check_alerting_rules node_id (fatigue_data bin1 bin2 bin3)
                (logging INFO "Logged fatigue data" (set_db_conn c' self))
          end
      end
  | Ok _ => (self, Raise ValueError)
  end.

Definition _process_nrf_packet (now : string) (fault : db_fault)
    (payload : bytes) (self : processor) : processor * result unit :=
  if negb (Nat.eqb (length payload) 5) then
    (logging WARNING "Received nRF packet of incorrect length" self, Ok tt)
  else
    match struct_unpack "<BhH" payload with
    | Raise _ => (logging ERROR "Failed to unpack nRF packet" self, Ok tt)
    | Ok [PyInt node_id; PyInt temp_scaled; PyInt hum_scaled] =>
        let temperature := truediv temp_scaled 100 in
        let humidity := truediv hum_scaled 100 in
        match execute fault (insert_environment now node_id temperature humidity)
                (db_conn self) with
        | Raise _ =>
            except_sqlite_error fault (db_conn self) "Database error for environment_log" self
        | Ok c =>
            match try_commit fault c with
            | Raise _ =>
                except_sqlite_error fault c "Database error for environment_log" self
            | Ok c' =>
                (logging INFO "Logged environment data" (set_db_conn c' self), Ok tt)
            end
        end
    | Ok _ =>
        (logging ERROR "An unexpected error occurred in _process_nrf_packet" self, Ok tt)
    end.

(** *** The loop of [run]

    The thread is observed each time it is about to test one of its two
    inner [while] conditions; [Tick] lets it run up to the next test.
    Between two ticks the radio workers may put packets on the queues. *)

Inductive loop_pos : Type := InHighLoop | InLowLoop.

Inductive tier : Type := High | Low.

Record thread : Type := Thread {
  self : processor;
  pos : loop_pos;
  processed_something : bool;
  history : list (tier * bytes)    (* packets taken off the queues, in order *)
}.

Inductive action : Type :=
| Tick (now : string) (fault : db_fault)
| LoRaPut (packet : bytes)
| NrfPut (packet : bytes).

(** A worker's put that finds the queue full times out and drops. *)
Definition worker_put {A} (q : pqueue A) (x : A) : pqueue A :=
  match put_nowait q x with Ok q' => q' | Raise _ => q end.

Definition tick (now : string) (fault : db_fault) (t : thread) : thread :=
  match pos t with
  | InHighLoop =>
      if q_empty (high_prio_q (self t)) then
        Thread (self t) InLowLoop (processed_something t) (history t)
      else
      match get_nowait (high_prio_q (self t)) with
      | Raise _ => Thread (self t) InHighLoop false (history t)   (* except queue.Empty *)
      | Ok (lora_packet, q) =>
          match _process_lora_packet now fault lora_packet
                  (set_high_prio_q q (self t)) with
          | (s, Ok _) => Thread s InHighLoop true (history t ++ [(High, lora_packet)])
          | (s, Raise _) =>
              Thread (logging ERROR "An error occurred in the data processing loop" s)
                     InHighLoop false (history t ++ [(High, lora_packet)])
          end
      end
  | InLowLoop =>
      if q_empty (low_prio_q (self t)) then
        Thread (self t) InHighLoop false (history t)   (* sleep if nothing was processed *)
      else
      match get_nowait (low_prio_q (self t)) with
      | Raise _ => Thread (self t) InHighLoop false (history t)   (* except queue.Empty *)
      | Ok (nrf_packet, q) =>
          match _process_nrf_packet now fault nrf_packet
                  (set_low_prio_q q (self t)) with
          | (s, Ok _) => Thread s InLowLoop true (history t ++ [(Low, nrf_packet)])
          | (s, Raise _) =>
              Thread (logging ERROR "An error occurred in the data processing loop" s)
                     InHighLoop false (history t ++ [(Low, nrf_packet)])
          end
      end
  end.

Definition perform (a : action) (t : thread) : thread :=
  match a with
  | Tick now fault => tick now fault t
  | LoRaPut p =>
      Thread (set_high_prio_q (worker_put (high_prio_q (self t)) p) (self t))
             (pos t) (processed_something t) (history t)
  | NrfPut p =>
      Thread (set_low_prio_q (worker_put (low_prio_q (self t)) p) (self t))
             (pos t) (processed_something t) (history t)
  end.

Definition run (schedule : list action) (t : thread) : thread :=
  foldl (λ t a, perform a t) t schedule.

(** Bytes [i .. i+n-1] of a buffer. *)
Definition slice (i n : nat) (bs : bytes) : bytes := take n (drop i bs).

(** No transaction is open on the connection. *)
Definition idle (c : connection) : Prop := working c = committed c.

(** ** [communications_thread.py]: the modem and the cloud upload *)

Definition ALERT_RECIPIENT_NUMBER : string := "+1234567890".
Definition CLOUD_ENDPOINT_URL : string := "http://your-cloud-endpoint.com/api/setu-data".
Definition GPRS_APN : string := "your_apn".
Definition GATEWAY_ID : string := "GW001".

(** The line feed and the double quote, by their character codes. *)
Definition LF : string := String "010"%char "".
Definition CRLF : string := String "013"%char (String "010"%char "").
Definition DQ : string := String "034"%char "".
Definition CTRL_Z : string := String "026"%char "".

(** Python's [sub in s] on strings. *)
Fixpoint str_in (sub s : string) : bool :=
  String.prefix sub s
  || match s with
     | EmptyString => false
     | String _ s' => str_in sub s'
     end.

(** What the serial port yields next: a line of the modem (decoded and
    stripped), or silence until the deadline of the command that is
    waiting has passed. *)
Inductive rx : Type :=
| Line (s : string)
| Deadline.

Record serial : Type := Serial {
  incoming : list rx;
  written : list string
}.

Record SIM800LManager : Type := Manager { ser : option serial }.

(** The read loop of [send_at_command]. *)
Fixpoint read_until (expected_response : string) (rxs : list rx) (response : string)
    : (bool * string) * list rx :=
  match rxs with
  | [] => ((false, response), [])
  | Deadline :: rest => ((false, response), rest)
  | Line line :: rest =>
      if String.eqb line "" then read_until expected_response rest response
      else
        let response := response +:+ line +:+ LF in
        if str_in expected_response line then ((true, response), rest)
        else read_until expected_response rest response
  end.

Definition send_at_command (command expected_response : string)
    (m : SIM800LManager) : (bool * string) * SIM800LManager :=
  match ser m with
  | None => ((false, "Serial port not available"), m)
  | Some port =>
      let '(r, rest) := read_until expected_response (incoming port) "" in
      (r, Manager (Some (Serial rest (written port ++ [command +:+ CRLF]))))
  end.

(** [self.sim_manager.ser.write(data)] *)
Definition ser_write (data : string) (m : SIM800LManager) : result SIM800LManager :=
  match ser m with
  | None => Raise AttributeError
  | Some port => Ok (Manager (Some (Serial (incoming port) (written port ++ [data]))))
  end.

(** The [try] block of [_http_post_payload]. *)
Definition http_post_dialogue (payload : string) (m : SIM800LManager)
    : result bool * SIM800LManager :=
  let '((_, creg), m) := send_at_command "AT+CREG?" "OK" m in
  let '(registered, m) :=
    if str_in "+CREG: 0,1" creg then (true, m)
    else let '((_, creg'), m) := send_at_command "AT+CREG?" "OK" m in
         (str_in "+CREG: 0,5" creg', m) in
  if negb registered then (Ok false, m)
  else
    let '(_, m) := send_at_command ("AT+SAPBR=3,1," +:+ DQ +:+ "APN" +:+ DQ +:+ ","
                                      +:+ DQ +:+ GPRS_APN +:+ DQ) "OK" m in
    let '(_, m) := send_at_command "AT+SAPBR=1,1" "OK" m in
    let '(_, m) := send_at_command "AT+HTTPINIT" "OK" m in
    let '(_, m) := send_at_command ("AT+HTTPPARA=" +:+ DQ +:+ "CID" +:+ DQ +:+ ",1") "OK" m in
    let '(_, m) := send_at_command ("AT+HTTPPARA=" +:+ DQ +:+ "URL" +:+ DQ +:+ ","
                                      +:+ DQ +:+ CLOUD_ENDPOINT_URL +:+ DQ) "OK" m in
    let '(_, m) := send_at_command ("AT+HTTPPARA=" +:+ DQ +:+ "CONTENT" +:+ DQ +:+ ","
                                      +:+ DQ +:+ "application/json" +:+ DQ) "OK" m in
    let '(_, m) := send_at_command ("AT+HTTPDATA=" +:+ pretty (String.length payload)
                                      +:+ ",10000") "DOWNLOAD" m in
    match ser_write payload m with
    | Raise e => (Raise e, m)
    | Ok m =>
        let '((data_ok, _), m) := send_at_command "" "OK" m in
        if negb data_ok then (Ok false, m)
        else
          let '((success, response), m) :=
            send_at_command "AT+HTTPACTION=1" "+HTTPACTION" m in
          if success && str_in "1,200" response then (Ok true, m)
          else (Ok false, m)
    end.

(** The [finally] block: the HTTP service and the bearer are closed. *)
Definition http_cleanup (m : SIM800LManager) : SIM800LManager :=
  let '(_, m) := send_at_command "AT+HTTPTERM" "OK" m in
  let '(_, m) := send_at_command "AT+SAPBR=0,1" "OK" m in
  m.

Definition _http_post_payload (payload : string) (sim_manager : option SIM800LManager)
    : result bool * option SIM800LManager :=
  match sim_manager with
  | None => (Ok false, None)
  | Some m =>
      let '(r, m) := http_post_dialogue payload m in
      (r, Some (http_cleanup m))
  end.

(** One element of the JSON array that is posted. *)
Record payload_item : Type := PayloadItem {
  gateway_id : string;
  packet_id : Z;
  item_node_id : Z;
  item_timestamp : string;
  bin_1 : Z;
  bin_2 : Z;
  bin_3 : Z
}.

(** [SELECT ... FROM fatigue_log WHERE sent_to_cloud = 0 LIMIT 50]: the
    table is scanned in rowid order. *)
Definition select_unsent (db : database) : list fatigue_row :=
  take 50 (filter (λ r, sent_to_cloud r = 0) (fatigue_log db)).

(** [UPDATE fatigue_log SET sent_to_cloud = 1 WHERE log_id IN (...)] *)
Definition mark_sent (ids : list Z) (db : database) : database :=
  Database
    ((λ r, if bool_decide (log_id r ∈ ids)
               then FatigueRow (log_id r) (timestamp r) (node_id r) (bin_1_cycles r)
                               (bin_2_cycles r) (bin_3_cycles r) 1
               else r)
       <$> fatigue_log db)
    (fatigue_seq db) (environment_log db) (environment_seq db).

Record CommunicationsThread : Type := Communications {
  sim_manager : option SIM800LManager;
  comm_alert_q : pqueue string;
  comm_log : list log_record
}.

Definition comm_logging (l : level) (m : string) (self : CommunicationsThread)
    : CommunicationsThread :=
  Communications (sim_manager self) (comm_alert_q self) (comm_log self ++ [Log l m]).

Definition set_sim_manager (m : option SIM800LManager) (self : CommunicationsThread)
    : CommunicationsThread :=
  Communications m (comm_alert_q self) (comm_log self).

Definition set_comm_alert_q (q : pqueue string) (self : CommunicationsThread)
    : CommunicationsThread :=
  Communications (sim_manager self) q (comm_log self).

(** [setup_sms]; [open_port] is the serial port a new [SIM800LManager]
    would get ([None] when it cannot be opened). *)
Definition setup_sms (open_port : option serial) (self : CommunicationsThread)
    : bool * CommunicationsThread :=
  let m := match sim_manager self with
           | Some (Manager (Some port)) => Manager (Some port)
           | _ => Manager open_port
           end in
  match ser m with
  | None => (false, set_sim_manager (Some m) self)
  | Some _ =>
      let '((at_ok, _), m) := send_at_command "AT" "OK" m in
      if negb at_ok then (false, set_sim_manager (Some m) self)
      else
        let '((_, cpin), m) := send_at_command "AT+CPIN?" "OK" m in
        if negb (str_in "+CPIN: READY" cpin) then
          (false, comm_logging WARNING "SIM card not ready." (set_sim_manager (Some m) self))
        else
          let '((cmgf_ok, _), m) := send_at_command "AT+CMGF=1" "OK" m in
          if negb cmgf_ok then
            (false, comm_logging ERROR "Failed to set SIM800L to text mode."
                      (set_sim_manager (Some m) self))
          else
            (true, comm_logging INFO "SIM800L module is ready for SMS."
                     (set_sim_manager (Some m) self))
  end.

Definition send_sms (number message : string) (self : CommunicationsThread)
    : result bool * CommunicationsThread :=
  match sim_manager self with
  | None => (Ok false, self)
  | Some m =>
      let '((success, _), m) :=
        send_at_command ("AT+CMGS=" +:+ DQ +:+ number +:+ DQ) ">" m in
      if success then
        match ser_write message m with
        | Raise e => (Raise e, set_sim_manager (Some m) self)
        | Ok m =>
            match ser_write CTRL_Z m with
            | Raise e => (Raise e, set_sim_manager (Some m) self)
            | Ok m =>
                let '((final_success, _), m) := send_at_command "" "OK" m in
                if final_success then
                  (Ok true, comm_logging INFO "SMS sent successfully."
                              (set_sim_manager (Some m) self))
                else
                  (Ok false, comm_logging ERROR "Failed to send SMS."
                               (set_sim_manager (Some m) self))
            end
        end
      else (Ok false, set_sim_manager (Some m) self)
  end.

(** The alert part of an iteration of [run], the modem being ready: it
    gives the new value of [is_sms_ready].  The loop takes [send_sms] as
    it finds it: [deliver_one_alert_with] is the [try] block and its
    handlers for any behaviour of that call, an exception included. *)
Definition deliver_one_alert_with
    (send_sms : string → string → CommunicationsThread → result bool * CommunicationsThread)
    (self : CommunicationsThread) : bool * CommunicationsThread :=
  match get_nowait (comm_alert_q self) with
  | Raise _ => (true, self)                             (* queue.Empty after 1 s *)
  | Ok (alert_message, q) =>
      match send_sms ALERT_RECIPIENT_NUMBER alert_message (set_comm_alert_q q self) with
      | (Ok true, self) => (true, self)
      | (Ok false, self) =>
          (false, set_comm_alert_q (Queue (items (comm_alert_q self) ++ [alert_message])
                                          (maxsize (comm_alert_q self)))
                    (comm_logging WARNING "SMS failed. Re-queuing alert." self))
      | (Raise _, self) =>
          (false, comm_logging ERROR "Error in communications loop" self)
      end
  end.

Definition deliver_one_alert (self : CommunicationsThread) : bool * CommunicationsThread :=
  deliver_one_alert_with send_sms self.

(** The list [payload_data] built from the selected rows. *)
Definition payload_data (records : list fatigue_row) : list payload_item :=
  (λ row, PayloadItem GATEWAY_ID (log_id row) (node_id row) (timestamp row)
            (bin_1_cycles row) (bin_2_cycles row) (bin_3_cycles row))
  <$> records.

Section Forwarding.

(** [json.dumps] is taken as given. *)
Variable json_dumps : list payload_item → string.

(** [forward_data_to_cloud], on the store [db] that the connection it
    opens finds; it gives back what the store holds when it returns. *)
Definition forward_data_to_cloud (fault : db_fault) (db : database)
    (self : CommunicationsThread) : (database * CommunicationsThread) * result unit :=
  let self := comm_logging INFO "Checking for data to forward to the cloud..." self in
  let db_conn := connect db in
  let records := select_unsent (working db_conn) in
  match records with
  | [] => ((db, comm_logging INFO "No new data to send." self), Ok tt)
  | _ =>
      let log_ids_to_update := log_id <$> records in
      let json_payload := json_dumps (payload_data records) in
      match _http_post_payload json_payload (sim_manager self) with
      | (Raise e, m) => ((db, set_sim_manager m self), Raise e)
      | (Ok true, m) =>
          let self := comm_logging INFO
                        ("Successfully sent " +:+ pretty (length records)
                           +:+ " records. Updating database.")
                        (set_sim_manager m self) in
          match execute fault (mark_sent log_ids_to_update) db_conn with
          | Raise e => ((db, self), Raise e)
          | Ok c =>
              match try_commit fault c with
              | Raise e => ((db, self), Raise e)
              | Ok c' => ((committed c', self), Ok tt)
              end
          end
      | (Ok false, m) =>
          ((db, comm_logging ERROR "Failed to send data to cloud. Database not updated."
                  (set_sim_manager m self)), Ok tt)
      end
  end.

(** The periodic part of an iteration of [run]: [now] is the clock when
    the test is made, [now'] the clock when the upload has returned. *)
Definition cloud_upload_due (now last_cloud_upload_time : Q) : bool :=
  negb (Qle_bool (now - last_cloud_upload_time) 900).

Definition periodic_forwarding (now now' : Q) (fault : db_fault)
    (last_cloud_upload_time : Q) (db : database) (self : CommunicationsThread)
    : (database * CommunicationsThread * Q) * result unit :=
  if cloud_upload_due now last_cloud_upload_time then
    match forward_data_to_cloud fault db self with
    | ((db', self'), Ok _) => ((db', self', now'), Ok tt)
    | ((db', self'), Raise e) => ((db', self', last_cloud_upload_time), Raise e)
    end
  else ((db, self, last_cloud_upload_time), Ok tt).

(** The locals of [run]. *)
Record run_locals : Type := RunLocals {
  is_sms_ready : bool;
  last_cloud_upload_time : Q
}.

(** One iteration of the loop of [run]. *)
Definition run_iteration (open_port : option serial) (now now' : Q) (fault : db_fault)
    (loc : run_locals) (db : database) (self : CommunicationsThread)
    : (database * CommunicationsThread * run_locals) * result unit :=
  let '(ready, self) :=
    if is_sms_ready loc then (true, self) else setup_sms open_port self in
  if negb ready then
    ((db, self, RunLocals false (last_cloud_upload_time loc)), Ok tt)   (* wait(10); continue *)
  else
    let '(ready, self) := deliver_one_alert self in
    match periodic_forwarding now now' fault (last_cloud_upload_time loc) db self with
    | ((db, self, last), r) => ((db, self, RunLocals ready last), r)
    end.

End Forwarding.

(** The value [run] gives [last_cloud_upload_time] on entry. *)
Definition initial_last_cloud_upload_time (start : Q) : Q := (start - 880)%Q.

(** The rows of [fatigue_log] are in strictly increasing rowid order and
    no rowid exceeds the AUTOINCREMENT counter. *)
Definition rowid_lt (a b : fatigue_row) : Prop := log_id a < log_id b.

Definition store_ok (db : database) : Prop :=
  StronglySorted rowid_lt (fatigue_log db)
  ∧ Forall (λ r, log_id r ≤ fatigue_seq db) (fatigue_log db).

Global Instance rowid_lt_dec (a b : fatigue_row) : Decision (rowid_lt a b).
Proof. unfold rowid_lt. apply _. Defined.

Global Instance store_ok_dec (db : database) : Decision (store_ok db).
Proof. unfold store_ok. apply _. Defined.

(** *** Fixtures for the upload: three unsent rows and a modem script *)

Definition db_three_unsent : database :=
  Database [FatigueRow 10 "2025-09-01T10:00:00" 1 5 10 20 0;
            FatigueRow 11 "2025-09-01T10:05:00" 1 6 10 20 0;
            FatigueRow 12 "2025-09-01T10:10:00" 1 7 11 20 0] 12 [] 0.

(** The modem answers every command of the upload dialogue; [action] is
    the line it sends for the result of the POST. *)
Definition modem_script (action : string) : list rx :=
  [Line "+CREG: 0,1"; Line "OK";            (* AT+CREG? *)
   Line "OK"; Line "OK"; Line "OK";         (* SAPBR=3,1  SAPBR=1,1  HTTPINIT *)
   Line "OK"; Line "OK"; Line "OK";         (* HTTPPARA CID, URL, CONTENT *)
   Line "DOWNLOAD";                         (* HTTPDATA *)
   Line "OK";                               (* payload accepted *)
   Line "OK"; Line action;                  (* HTTPACTION=1 *)
   Line "OK"; Line "OK"].                   (* HTTPTERM  SAPBR=0,1 *)

Definition comm_with_modem (action : string) : CommunicationsThread :=
  Communications (Some (Manager (Some (Serial (modem_script action) []))))
                 (Queue [] 50) [].

(** ** [archive.py]: archive and purge *)

Record archive_file : Type := ArchiveFile {
  archive_filepath : string;
  header : list string;
  data_rows : list fatigue_row
}.

(** What one run finds in its environment. *)
Record archive_env : Type := ArchiveEnv {
  db_file_exists : bool;        (* os.path.exists(db_path) *)
  makedirs_ok : bool;           (* os.makedirs does not raise *)
  connect_ok : bool;            (* sqlite3.connect does not raise *)
  cutoff_date : string;         (* (utcnow() - timedelta(days=N)).isoformat() *)
  file_stamp : string;          (* utcnow().strftime('%Y%m%d_%H%M%S') *)
  write_ok : bool;              (* the gzip file is written and closed *)
  delete_fault : db_fault       (* the DELETE or its commit fails *)
}.

Record archive_world : Type := ArchiveWorld {
  store : database;
  archive_dir : list archive_file;
  archive_log : list log_record
}.

Inductive archive_event : Type :=
| ArchiveClosed (f : archive_file)     (* the [with gzip.open] block is left *)
| PurgeCommitted.                      (* the [with conn] block is left *)

(** [timestamp < ?] on TEXT values: bytewise comparison. *)
Definition older_than (cutoff : string) (r : fatigue_row) : Prop :=
  String.ltb (timestamp r) cutoff = true.

Global Instance older_than_dec (cutoff : string) (r : fatigue_row) :
  Decision (older_than cutoff r).
Proof. unfold older_than. apply _. Defined.

(** [DELETE FROM fatigue_log WHERE timestamp < ?] *)
Definition purge (cutoff : string) (db : database) : database :=
  Database (filter (λ r, ¬ older_than cutoff r) (fatigue_log db))
           (fatigue_seq db) (environment_log db) (environment_seq db).

Definition fatigue_header : list string :=
  ["log_id"; "timestamp"; "node_id"; "bin_1_cycles"; "bin_2_cycles";
   "bin_3_cycles"; "sent_to_cloud"].

Definition archive_logging (l : level) (m : string) (w : archive_world) : archive_world :=
  ArchiveWorld (store w) (archive_dir w) (archive_log w ++ [Log l m]).

Definition archive_and_purge (env : archive_env) (w : archive_world)
    : archive_world * list archive_event :=
  if negb (db_file_exists env) then
    (archive_logging CRITICAL "Database file not found. Aborting." w, [])
  else if negb (makedirs_ok env) then
    (archive_logging CRITICAL "Could not create archive directory" w, [])
  else if negb (connect_ok env) then
    (archive_logging CRITICAL "An unexpected error occurred during the archive process." w, [])
  else
    let conn := connect (store w) in
    let records := filter (older_than (cutoff_date env)) (fatigue_log (working conn)) in
    match records with
    | [] => (archive_logging INFO "No records old enough to archive. Process finished." w, [])
    | _ =>
        if negb (write_ok env) then
          (archive_logging CRITICAL "An unexpected error occurred during the archive process." w, [])
        else
          let f := ArchiveFile ("fatigue_log_archive_" +:+ file_stamp env +:+ ".csv.gz")
                               fatigue_header records in
          let w := ArchiveWorld (store w) (archive_dir w ++ [f])
                     (archive_log w ++ [Log INFO "Successfully wrote archive file."]) in
          let purged :=
            match execute (delete_fault env) (purge (cutoff_date env)) conn with
            | Raise e => Raise e
            | Ok c => try_commit (delete_fault env) c
            end in
          match purged with
          | Raise _ =>
              (archive_logging CRITICAL
                 "An unexpected error occurred during the archive process." w,
               [ArchiveClosed f])
          | Ok c =>
              (ArchiveWorld (committed c) (archive_dir w)
                 (archive_log w ++ [Log INFO "Successfully purged records from the live database."]),
               [ArchiveClosed f; PurgeCommitted])
          end
    end.


(** *** Fixture for the archiver: scenario 6 *)

Definition db_old_and_recent : database :=
  Database [FatigueRow 1 "2024-07-30T08:00:00" 1 5 10 20 1;
            FatigueRow 2 "2025-05-26T08:00:00.250000" 1 6 10 20 0] 2 [] 0.

Definition env_archive_ok : archive_env :=
  ArchiveEnv true true true "2024-09-03T08:00:00" "20250903_080000" true NoFault.

(** ** [spi_lock.py]: the bus lock *)

Inductive worker : Type := LoRaWorker | nRFWorker.

Global Instance worker_eq_dec : EqDecision worker.
Proof. solve_decision. Defined.

(** What happens on the bus and on the queues, in order. *)
Inductive bus_event : Type :=
| LockAcquired (w : worker)
| SpiOpened (device : Z)
| SpiOpenFailed (device : Z)
| SpiClosed
| SpiCloseFailed
| LockReleased (w : worker)
| Enqueued (w : worker) (payload : bytes)
| PutTimedOut (w : worker) (payload : bytes).

(** [_lock] is the thread that holds the [threading.Lock], [_spi] the
    device that is open on the shared [SpiDev] object. *)
Record SPILock : Type := Bus {
  _lock : option worker;
  _spi : option Z;
  max_speed_hz : Z;
  trace : list bus_event
}.

(** The handle a [with] block receives: the open [SpiDev]. *)
Inductive SpiDev : Type := spidev (device : Z).

Record spi_faults : Type := SpiFaults {
  open_raises : bool;       (* spi.open(bus, device) raises *)
  speed_raises : bool;      (* setting max_speed_hz raises *)
  close_raises : bool       (* spi.close() raises *)
}.

Definition emit (evs : list bus_event) (b : SPILock) : SPILock :=
  Bus (_lock b) (_spi b) (max_speed_hz b) (trace b ++ evs).

(** [lock.acquire()] does not return while another thread holds the
    lock: [None] is a caller that stays blocked. *)
Definition lock_acquire (who : worker) (b : SPILock) : option SPILock :=
  match _lock b with
  | Some _ => None
  | None => Some (Bus (Some who) (_spi b) (max_speed_hz b) (trace b ++ [LockAcquired who]))
  end.

Definition lock_release (who : worker) (b : SPILock) : SPILock :=
  Bus None (_spi b) (max_speed_hz b) (trace b ++ [LockReleased who]).

Definition __enter__ (who : worker) (device speed : Z) (f : spi_faults)
    (b : SPILock) : option (SPILock * result SpiDev) :=
  match lock_acquire who b with
  | None => None
  | Some b =>
      if open_raises f then
        Some (lock_release who (emit [SpiOpenFailed device] b), Raise OSError)
      else
        let b := Bus (_lock b) (Some device) (max_speed_hz b)
                     (trace b ++ [SpiOpened device]) in
        if speed_raises f then Some (lock_release who b, Raise OSError)
        else Some (Bus (_lock b) (_spi b) speed (trace b), Ok (spidev device))
  end.

Definition __exit__ (who : worker) (f : spi_faults) (b : SPILock) : SPILock :=
  let b := if close_raises f then emit [SpiCloseFailed] b
           else Bus (_lock b) None (max_speed_hz b) (trace b ++ [SpiClosed]) in
  lock_release who b.

(** [with spi_lock.acquire(device, max_speed_hz) as spi: body].  The body
    works on the state [S] of its thread and reports the queue events it
    causes; [__exit__] returns nothing, so what the body raises goes on to
    the caller. *)
Definition with_acquire {S A : Type} (who : worker) (device speed : Z)
    (f : spi_faults) (body : SpiDev → S → S * list bus_event * result A)
    (b : SPILock) (s : S) : option (SPILock * S * result A) :=
  match __enter__ who device speed f b with
  | None => None
  | Some (b, Raise e) => Some (b, s, Raise e)
  | Some (b, Ok spi) =>
      let '(s, evs, r) := body spi s in
      Some (__exit__ who f (emit evs b), s, r)
  end.

(** Who holds the lock after a run of events, [h] holding it before. *)
Definition holder_step (h : option worker) (e : bus_event) : option worker :=
  match e with
  | LockAcquired w => Some w
  | LockReleased _ => None
  | _ => h
  end.

Definition holder_from (h : option worker) (evs : list bus_event) : option worker :=
  foldl holder_step h evs.

Definition holder_after (evs : list bus_event) : option worker :=
  holder_from None evs.

(** Every enqueue of the run is made by the holder of the lock. *)
Fixpoint inside_from (h : option worker) (evs : list bus_event) : bool :=
  match evs with
  | [] => true
  | e :: evs' =>
      match e with
      | Enqueued w _ => bool_decide (h = Some w)
      | _ => true
      end && inside_from (holder_step h e) evs'
  end.

(** An event of [who] on its queue. *)
Definition queue_event_of (who : worker) (e : bus_event) : Prop :=
  match e with
  | Enqueued w _ | PutTimedOut w _ => w = who
  | _ => False
  end.

(** ** [worker_threads.py]: the radio workers *)

Record worker_thread : Type := Worker {
  data_queue : pqueue bytes;
  is_setup : bool;
  worker_log : list log_record
}.

(** [data_queue.put(packet_payload, timeout=0.5)] with its handler for
    [queue.Full]: on a queue that stays full the packet is dropped. *)
Definition put_or_drop (who : worker) (payload : bytes) (t : worker_thread)
    : worker_thread * list bus_event :=
  match put_nowait (data_queue t) payload with
  | Ok q => (Worker q (is_setup t) (worker_log t), [Enqueued who payload])
  | Raise _ =>
      (Worker (data_queue t) (is_setup t)
              (worker_log t ++
                 [Log WARNING
                    match who with
                    | LoRaWorker => "High-priority queue is full. LoRa packet dropped."
                    | nRFWorker => "Low-priority queue is full. nRF packet dropped."
                    end]),
       [PutTimedOut who payload])
  end.

(** What the LoRa driver answers during one wake-up. *)
Record lora_radio : Type := LoRaRadio {
  setup_lora : bool;                (* setup_lora(spi), which catches its errors *)
  getIrqFlags : result bool;        (* RX_DONE set? *)
  clearIrqFlags : result unit;
  lora_read : result bytes;
  setRx : result unit
}.

(** The body of the [with] block of [LoRaWorkerThread.run]; [Ok false]
    stands for leaving it by [continue]. *)
Definition lora_body (radio : lora_radio) (spi : SpiDev) (t : worker_thread)
    : worker_thread * list bus_event * result bool :=
  let is_lora_setup := if is_setup t then true else setup_lora radio in
  let t := Worker (data_queue t) is_lora_setup (worker_log t) in
  if negb is_lora_setup then (t, [], Ok false)
  else
    match getIrqFlags radio with
    | Raise e => (t, [], Raise e)
    | Ok false =>
        match setRx radio with
        | Raise e => (t, [], Raise e)
        | Ok _ => (t, [], Ok true)
        end
    | Ok true =>
        match clearIrqFlags radio with
        | Raise e => (t, [], Raise e)
        | Ok _ =>
            match lora_read radio with
            | Raise e => (t, [], Raise e)
            | Ok packet_payload =>
                let '(t, evs) := put_or_drop LoRaWorker packet_payload t in
                match setRx radio with
                | Raise e => (t, evs, Raise e)
                | Ok _ => (t, evs, Ok true)
                end
            end
        end
    end.

(** The [except Exception] of the worker loop. *)
Definition worker_except {A} (r : result A) (t : worker_thread) : worker_thread :=
  match r with
  | Ok _ => t
  | Raise _ =>
      Worker (data_queue t) false
             (worker_log t ++ [Log ERROR "An error occurred in the worker loop"])
  end.

(** One signalled wake-up of [LoRaWorkerThread.run]. *)
Definition lora_wakeup (f : spi_faults) (radio : lora_radio) (b : SPILock)
    (t : worker_thread) : option (SPILock * worker_thread) :=
  match with_acquire LoRaWorker 0 8000000 f (lora_body radio) b t with
  | None => None
  | Some (b, t, r) => Some (b, worker_except r t)
  end.

(** What the nRF driver answers during one wake-up: the result of each
    [read()] for which [available()] said yes. *)
Record nrf_radio : Type := NrfRadio {
  setup_nrf : bool;
  rx_fifo : list (result bytes)
}.

(** The loop [while self.nrf.available()]. *)
Fixpoint nrf_drain (fifo : list (result bytes)) (t : worker_thread)
    : worker_thread * list bus_event * result bool :=
  match fifo with
  | [] => (t, [], Ok true)
  | Raise e :: _ => (t, [], Raise e)
  | Ok packet_payload :: fifo' =>
      let '(t, evs) := put_or_drop nRFWorker packet_payload t in
      let '(t, evs', r) := nrf_drain fifo' t in
      (t, evs ++ evs', r)
  end.

Definition nrf_body (radio : nrf_radio) (spi : SpiDev) (t : worker_thread)
    : worker_thread * list bus_event * result bool :=
  let is_nrf_setup := if is_setup t then true else setup_nrf radio in
  let t := Worker (data_queue t) is_nrf_setup (worker_log t) in
  if negb is_nrf_setup then (t, [], Ok false)
  else nrf_drain (rx_fifo radio) t.

(** One signalled wake-up of [nRFWorkerThread.run]. *)
Definition nrf_wakeup (f : spi_faults) (radio : nrf_radio) (b : SPILock)
    (t : worker_thread) : option (SPILock * worker_thread) :=
  match with_acquire nRFWorker 1 10000000 f (nrf_body radio) b t with
  | None => None
  | Some (b, t, r) => Some (b, worker_except r t)
  end.

(** The claim of C10 on a run of events: whenever a worker enqueues, it
    does not hold the lock. *)
Definition enqueues_outside_scope (evs : list bus_event) : Prop :=
  ∀ pre w payload post,
    evs = pre ++ Enqueued w payload :: post → holder_after pre ≠ Some w.

(** What the workers do: whenever a worker enqueues, it holds the lock. *)
Definition enqueues_inside_scope (evs : list bus_event) : Prop :=
  ∀ pre w payload post,
    evs = pre ++ Enqueued w payload :: post → holder_after pre = Some w.

(** *** Fixtures for the bus *)

Definition free_bus : SPILock := Bus None None 0 [].

Definition no_spi_fault : spi_faults := SpiFaults false false false.

Definition fresh_worker (cap : nat) : worker_thread := Worker (Queue [] cap) false [].

(** *** Fixtures: the packets and the start state of the scenarios *)

Definition scenario_packet : bytes :=
  [x01; x00; xff; x05; x00; x00; x00; x0a; x00; x00; x00; x14; x00; x00; x00;
   x00; x00; x80; x3f; x00; x00; x00; x40; x00].

(** The first twenty bytes of [scenario_packet]. *)
Definition packet_20 : bytes := take 20 scenario_packet.

Definition scout_packet : bytes := [x2a; xf4; x01; x08; x07].

Definition scout_packet_2 : bytes := [x2b; x18; xfc; x10; x0e].

Definition empty_db : database := Database [] 0 [] 0.

Definition fresh_processor (rs : list rule) : processor :=
  Processor (Queue [] 100) (Queue [] 500) (Queue [] 50) rs (connect empty_db) [].

Definition lora_has_packet : lora_radio :=
  LoRaRadio true (Ok true) (Ok tt) (Ok scenario_packet) (Ok tt).

Definition nrf_has_two_packets : nrf_radio :=
  NrfRadio true [Ok scout_packet; Ok scout_packet_2].

(** The alert a rule calls for on one reading, if any: the text of
    [alert_message] with the three placeholders filled in. *)
Definition alert_for (node : Z) (data : gmap string Z) (r : rule) : option string :=
  if decide (rule_node_id r = node) then
    match data !! field_to_monitor r with
    | Some value =>
        if decide (threshold r < value) then
          match py_format (alert_message r)
                  [("node", pretty node); ("value", pretty value);
                   ("threshold", pretty (threshold r))] with
          | Ok m => Some m
          | Raise _ => None
          end
        else None
    | None => None
    end
  else None.

(** The template of a rule renders whatever reading is filled in. *)
Definition renders (r : rule) : Prop :=
  ∀ node value : Z,
    is_ok (py_format (alert_message r)
             [("node", pretty node); ("value", pretty value);
              ("threshold", pretty (threshold r))]) = true.

(** *** Fixtures for the priority loop *)

(** Two scout packets wait on the low-priority queue, the high-priority
    queue is empty, the thread is at the top of its loop. *)
Definition thread_two_low : thread :=
  Thread (Processor (Queue [] 100) (Queue [scout_packet; scout_packet_2] 500)
                    (Queue [] 50) [] (connect empty_db) [])
         InHighLoop false [].

(** A primary packet arrives after the first scout packet was handled. *)
Definition late_high_schedule : list action :=
  [Tick "t1" NoFault; Tick "t2" NoFault; LoRaPut scenario_packet;
   Tick "t3" NoFault; Tick "t4" NoFault; Tick "t5" NoFault].

(** ** Observations on the modem used in the statements *)

(** What has been written to the serial port so far. *)
Definition out (m : SIM800LManager) : list string :=
  match ser m with
  | Some port => written port
  | None => []
  end.

Definition has_port (m : SIM800LManager) : Prop := is_Some (ser m).

(** Fifty-one unsent rows, rowids 1 to 51. *)
Definition db_51_unsent : database :=
  Database ((λ i, FatigueRow (Z.of_nat i) "2025-09-01T10:00:00" 1 0 0 0 0) <$> seq 1 51)
           51 [] 0.

(** ** Two workers on one bus

    Each worker thread alternates between being outside and inside its
    [with] block; [Enters] is its call of [__enter__], [Leaves] the call
    of [__exit__] that ends the block. *)

Record bus_system : Type := BusSystem {
  sys_bus : SPILock;
  lora_inside : bool;
  nrf_inside : bool
}.

Definition inside (w : worker) (s : bus_system) : bool :=
  match w with
  | LoRaWorker => lora_inside s
  | nRFWorker => nrf_inside s
  end.

Definition set_inside (w : worker) (v : bool) (b : SPILock) (s : bus_system)
    : bus_system :=
  match w with
  | LoRaWorker => BusSystem b v (nrf_inside s)
  | nRFWorker => BusSystem b (lora_inside s) v
  end.

Inductive bus_action : Type :=
| Enters (w : worker) (device speed : Z) (f : spi_faults)
| Leaves (w : worker) (f : spi_faults).

Definition bus_step (s : bus_system) (a : bus_action) : bus_system :=
  match a with
  | Enters w device speed f =>
      if inside w s then s
      else
        match __enter__ w device speed f (sys_bus s) with
        | None => s                                   (* still blocked *)
        | Some (b, Ok _) => set_inside w true b s
        | Some (b, Raise _) => set_inside w false b s
        end
  | Leaves w f =>
      if inside w s then set_inside w false (__exit__ w f (sys_bus s)) s
      else s
  end.

Definition bus_run (actions : list bus_action) (s : bus_system) : bus_system :=
  foldl bus_step s actions.

Definition bus_start : bus_system := BusSystem free_bus false false.

(** ** [main.py]: the watchdog of the supervisor *)

Record supervisor : Type := Supervisor {
  alert_queue : pqueue string;
  shutdown_event : bool;
  main_log : list log_record
}.

Definition watchdog_alert (name : string) : string :=
  "FATAL: Gateway software failure. Thread '" +:+ name +:+ "' terminated.".

(** The [for t in threads] loop of [main]; a thread is given by its name
    and by what [is_alive()] answers.  The loop is left at the first
    thread found dead. *)
Fixpoint watchdog_pass (threads : list (string * bool)) (sv : supervisor) : supervisor :=
  match threads with
  | [] => sv
  | (name, is_alive) :: threads' =>
      if is_alive then watchdog_pass threads' sv
      else
        let lg := main_log sv ++ [Log CRITICAL "CRITICAL: Thread has died unexpectedly!"] in
        match put_nowait (alert_queue sv) (watchdog_alert name) with
        | Ok q => Supervisor q true lg
        | Raise _ =>
            Supervisor (alert_queue sv) true
              (lg ++ [Log ERROR "Alert queue full, cannot dispatch watchdog alert."])
        end
  end.

(** ** [db_setup.py]: creating the schema *)

(** The database file: a table that does not exist yet is [None]; the
    [nodes] table is keyed by its primary key [node_id]. *)
Record db_file : Type := DbFile {
  nodes : option (gmap Z (string * string));
  fatigue_table : option (list fatigue_row);
  environment_table : option (list environment_row)
}.

(** The call of [setup_database] that raises [sqlite3.Error], if any. *)
Inductive setup_fault : Type :=
| SetupOk
| ConnectRaises
| CreateNodesRaises
| CreateFatigueRaises
| CreateEnvironmentRaises
| InsertRaises
| CommitRaises.

Global Instance setup_fault_eq_dec : EqDecision setup_fault.
Proof. solve_decision. Defined.

(** [CREATE TABLE IF NOT EXISTS] *)
Definition create_if_not_exists {A} (empty : A) (table : option A) : option A :=
  match table with
  | Some t => Some t
  | None => Some empty
  end.

(** [INSERT INTO nodes ... VALUES (1, ...)] with its handler for
    [sqlite3.IntegrityError]: a node 1 that exists is left as it is. *)
Definition insert_sample_node (table : option (gmap Z (string * string)))
    : option (gmap Z (string * string)) :=
  match table with
  | None => None
  | Some t =>
      match t !! 1 with
      | Some _ => Some t
      | None => Some (<[1 := ("Girder A, North Abutment", "2025-08-26")]> t)
      end
  end.

(** [setup_database]: the three CREATE statements run outside a
    transaction and are durable at once; the INSERT is durable with the
    commit. *)
Definition setup_database (fault : setup_fault) (f : db_file)
    : db_file * list log_record :=
  let failed := [Log ERROR "Database setup failed"] in
  if decide (fault = ConnectRaises) then (f, failed)
  else if decide (fault = CreateNodesRaises) then (f, failed)
  else
    let f := DbFile (create_if_not_exists ∅ (nodes f)) (fatigue_table f)
                    (environment_table f) in
    if decide (fault = CreateFatigueRaises) then (f, failed)
    else
      let f := DbFile (nodes f) (create_if_not_exists [] (fatigue_table f))
                      (environment_table f) in
      if decide (fault = CreateEnvironmentRaises) then (f, failed)
      else
        let f := DbFile (nodes f) (fatigue_table f)
                        (create_if_not_exists [] (environment_table f)) in
        if decide (fault = InsertRaises) then (f, failed)
        else if decide (fault = CommitRaises) then (f, failed)
        else
          (DbFile (insert_sample_node (nodes f)) (fatigue_table f) (environment_table f),
           [Log INFO "Database and all tables are set up successfully."])
  .

(** A table of [f] that exists is still there in [f'], with every row it
    had. *)
Definition keeps_data (f f' : db_file) : Prop :=
  (∀ t, nodes f = Some t → ∃ t', nodes f' = Some t' ∧ t ⊆ t')
  ∧ (∀ rows, fatigue_table f = Some rows → fatigue_table f' = Some rows)
  ∧ (∀ rows, environment_table f = Some rows → environment_table f' = Some rows).

(** What the serial port still has to deliver. *)
Definition inc (m : SIM800LManager) : list rx :=
  match ser m with
  | Some port => incoming port
  | None => []
  end.

(** The character [c] occurs in [s]. *)
Fixpoint has_char (c : ascii) (s : string) : bool :=
  match s with
  | EmptyString => false
  | String d s' => Ascii.eqb c d || has_char c s'
  end.

(** The lines of a response, each followed by a line feed, as
    [send_at_command] accumulates them. *)
Definition join_lines (lines : list string) : string :=
  foldr (λ line acc, line +:+ LF +:+ acc) "" lines.

(** A bounded queue that holds no more than its capacity. *)
Definition within_capacity {A} (q : pqueue A) : Prop :=
  (0 < maxsize q)%nat ∧ (length (items q) ≤ maxsize q)%nat.

(** The three queues of the processor hold no more than their capacity. *)
Definition queues_ok (p : processor) : Prop :=
  within_capacity (high_prio_q p) ∧ within_capacity (low_prio_q p)
  ∧ within_capacity (alert_q p).

(** A worker is inside its [with] block exactly when it holds the lock. *)
Definition bus_inv (s : bus_system) : Prop :=
  ∀ w, inside w s = true ↔ _lock (sys_bus s) = Some w.

(** Every thread of the list is alive. *)
Definition all_alive (threads : list (string * bool)) : Prop :=
  Forall (λ t, t.2 = true) threads.

(* ================================================================== *)
(** * Part II. Properties                                              *)
(* ================================================================== *)

(** ** Ranges of decoded fields *)

Lemma byte_val_range (b : byte) : 0 ≤ byte_val b < 256.
Proof.
  unfold byte_val. pose proof (Byte.to_N_bounded b). lia.
Qed.

Lemma le_uint_range (bs : bytes) : 0 ≤ le_uint bs < 256 ^ Z.of_nat (length bs).
Proof.
  induction bs as [|b bs IH]; [cbn; lia|].
  cbn [le_uint length]. rewrite Nat2Z.inj_succ, Z.pow_succ_r by lia.
  pose proof (byte_val_range b). lia.
Qed.

Lemma le_uint_slice_range (i n : nat) (bs : bytes) :
  0 ≤ le_uint (slice i n bs) < 256 ^ Z.of_nat n.
Proof.
  pose proof (le_uint_range (slice i n bs)) as H.
  assert (length (slice i n bs) ≤ n)%nat by (unfold slice; rewrite length_take; lia).
  assert (256 ^ Z.of_nat (length (slice i n bs)) ≤ 256 ^ Z.of_nat n)
    by (apply Z.pow_le_mono_r; lia).
  lia.
Qed.

Lemma to_signed_16_range (u : Z) :
  0 ≤ u < 65536 → -32768 ≤ to_signed 16 u < 32768.
Proof. intros H. unfold to_signed. cbn. case_match; lia. Qed.

(** ** The division by [100.0] on the 16-bit range *)

Lemma all_from_spec (f : Z → bool) (n : Z) (count : nat) :
  all_from f n count = true → ∀ i, n ≤ i < n + Z.of_nat count → f i = true.
Proof.
  revert n. induction count as [|k IH]; intros n H i Hi; [lia|].
  cbn [all_from] in H. apply andb_prop in H as [H1 H2].
  destruct (decide (i = n)) as [->|]; [done|]. apply (IH (n + 1)); [done|lia].
Qed.

Lemma truediv_100_all_near :
  all_from (λ n, double_near (truediv n 100) (n # 100)) (-32768) (Z.to_nat 98304) = true.
Proof. vm_compute. reflexivity. Qed.

(** For every 16-bit reading, signed or unsigned, [n / 100.0] is a finite
    double within [2^-44] of the rational [n/100]. *)
Lemma truediv_100_near (n : Z) :
  -32768 ≤ n < 65536 → double_near (truediv n 100) (n # 100) = true.
Proof.
  intros Hn.
  apply (all_from_spec _ _ _ truediv_100_all_near n).
  rewrite Z2Nat.id by lia. lia.
Qed.

Lemma double_near_spec (d : float) (q : Q) :
  double_near d q = true ↔
  ∃ v, float_value d = Some v ∧ (- half_ulp_1024 <= v - q <= half_ulp_1024)%Q.
Proof.
  unfold double_near. destruct (float_value d) as [v|]; split.
  - intros H. apply andb_prop in H as [H1 H2]. exists v.
    by rewrite <- !Qle_bool_iff.
  - intros (v' & [= <-] & H1 & H2). apply andb_true_intro.
    by rewrite !Qle_bool_iff.
  - done.
  - by intros (v & ? & _).
Qed.

Example calcsize_BhH : calcsize <$> parse_fmt "<BhH" = Some 5%nat.
Proof. reflexivity. Qed.

Example format_scenario :
  py_format "N{node} val{value} thr{threshold}"
    [("node", pretty 1); ("value", pretty 20); ("threshold", pretty 15)]
  = Ok "N1 val20 thr15".
Proof. vm_compute. reflexivity. Qed.

Example scenario_1 :
  let p := fst (_process_lora_packet "t0" NoFault scenario_packet (fresh_processor [])) in
  fatigue_log (committed (db_conn p)) = [FatigueRow 1 "t0" 1 5 10 20 0]
  ∧ items (alert_q p) = [].
Proof. vm_compute. done. Qed.

Example scenario_2 :
  let p := fst (_process_lora_packet "t0" NoFault scenario_packet
                  (fresh_processor [Rule 1 "bin_3_cycles" 15 "N{node} val{value} thr{threshold}"])) in
  fatigue_log (committed (db_conn p)) = [FatigueRow 1 "t0" 1 5 10 20 0]
  ∧ items (alert_q p) = ["N1 val20 thr15"].
Proof. vm_compute. done. Qed.

Example scenario_3 :
  let p := fst (_process_nrf_packet "t0" NoFault [x2a; xf4; x01; x08; x07] (fresh_processor [])) in
  environment_log (committed (db_conn p)) = [EnvironmentRow 1 "t0" 42 5 18].
Proof. vm_compute. done. Qed.

(** ** Decoding *)

Lemma unpack_lora_24 (packet : bytes) :
  length packet = 24%nat →
  struct_unpack "<H B III f f B" packet =
    Ok [PyInt (le_uint (slice 0 2 packet)); PyInt (le_uint (slice 2 1 packet));
        PyInt (le_uint (slice 3 4 packet)); PyInt (le_uint (slice 7 4 packet));
        PyInt (le_uint (slice 11 4 packet)); PyFloat32 (le_uint (slice 15 4 packet));
        PyFloat32 (le_uint (slice 19 4 packet)); PyInt (le_uint (slice 23 1 packet))].
Proof.
  intros Hlen. unfold struct_unpack. cbn [parse_fmt parse_codes Ascii.eqb eqb fmap option_fmap option_map].
  rewrite Hlen. cbn [calcsize foldr code_size Nat.add Nat.eqb].
  do 25 (destruct packet as [|? packet]; try discriminate Hlen).
  reflexivity.
Qed.

Lemma unpack_lora_other (packet : bytes) :
  length packet ≠ 24%nat →
  struct_unpack "<H B III f f B" packet = Raise StructError.
Proof.
  intros Hlen. unfold struct_unpack. cbn [parse_fmt parse_codes Ascii.eqb eqb fmap option_fmap option_map].
  cbn [calcsize foldr code_size Nat.add].
  destruct (Nat.eqb_spec (length packet) 24); [contradiction | reflexivity].
Qed.

Lemma unpack_nrf_5 (payload : bytes) :
  length payload = 5%nat →
  struct_unpack "<BhH" payload =
    Ok [PyInt (le_uint (slice 0 1 payload));
        PyInt (to_signed 16 (le_uint (slice 1 2 payload)));
        PyInt (le_uint (slice 3 2 payload))].
Proof.
  intros Hlen. unfold struct_unpack. cbn [parse_fmt parse_codes Ascii.eqb eqb fmap option_fmap option_map].
  rewrite Hlen. cbn [calcsize foldr code_size Nat.add Nat.eqb].
  do 6 (destruct payload as [|? payload]; try discriminate Hlen).
  reflexivity.
Qed.

(** ** What rule evaluation leaves alone *)

Lemma check_rules_from_frame (rs : list rule) (node : Z) (data : gmap string Z)
    (self : processor) :
  let self' := (check_rules_from rs node data self).1 in
  db_conn self' = db_conn self ∧ high_prio_q self' = high_prio_q self
  ∧ low_prio_q self' = low_prio_q self ∧ rules self' = rules self.
Proof.
  revert self. induction rs as [|r rs IH]; intros self; cbn -[py_format]; [done|].
  repeat case_match; try apply IH; try done;
    match goal with
    | |- context [check_rules_from rs node data ?s] =>
        destruct (IH s) as (-> & -> & -> & ->); done
    end.
Qed.

Lemma process_lora_frame (now : string) (fault : db_fault) (packet : bytes)
    (self : processor) :
  let self' := (_process_lora_packet now fault packet self).1 in
  high_prio_q self' = high_prio_q self ∧ low_prio_q self' = low_prio_q self
  ∧ rules self' = rules self.
Proof.
  unfold _process_lora_packet, _check_alerting_rules, except_sqlite_error.
  repeat case_match; try done.
  match goal with
  | |- context [check_rules_from ?rs ?n ?d ?s] =>
      destruct (check_rules_from_frame rs n d s) as (_ & -> & -> & ->); done
  end.
Qed.

Lemma process_nrf_frame (now : string) (fault : db_fault) (payload : bytes)
    (self : processor) :
  let self' := (_process_nrf_packet now fault payload self).1 in
  high_prio_q self' = high_prio_q self ∧ low_prio_q self' = low_prio_q self
  ∧ rules self' = rules self ∧ alert_q self' = alert_q self.
Proof. unfold _process_nrf_packet, except_sqlite_error. repeat case_match; done. Qed.

Lemma process_nrf_returns (now : string) (fault : db_fault) (payload : bytes)
    (self : processor) :
  fault ≠ ConnectionUnusable →
  (_process_nrf_packet now fault payload self).2 = Ok tt.
Proof.
  intros Hf. unfold _process_nrf_packet, except_sqlite_error.
  destruct fault; [..|done]; repeat case_match; done.
Qed.

(** ** C3: the primary-radio record *)

(** C3, as the claim has it, fails: a primary packet of twenty bytes is
    not deserialized; it is discarded with an error and no row. *)
Lemma lora_packet_of_20_bytes_discarded :
  length packet_20 = 20%nat
  ∧ struct_unpack "<H B III f f B" packet_20 = Raise StructError
  ∧ _process_lora_packet "t0" NoFault packet_20 (fresh_processor [])
    = (logging ERROR "Failed to unpack LoRa packet" (fresh_processor []), Ok tt)
  ∧ fatigue_log (committed (db_conn
       (_process_lora_packet "t0" NoFault packet_20 (fresh_processor [])).1)) = [].
Proof. vm_compute. done. Qed.

(** C3 (amended): the format [<H B III f f B] is a record of 24 bytes
    (u16 node_id, u8, u32 bin1, u32 bin2, u32 bin3, f32, f32, u8).  A
    primary packet of exactly 24 bytes is deserialized into its eight
    fields and handled: when the store accepts the insert, one fatigue
    row with the decoded node and bins and [sent_to_cloud = 0] is
    committed.  A packet of any other length is discarded: an error is
    logged and nothing else changes, so no fatigue row is written. *)
Theorem lora_packet_is_24_bytes (now : string) (fault : db_fault)
    (packet : bytes) (self : processor) :
  idle (db_conn self) →
  let self' := (_process_lora_packet now fault packet self).1 in
  (length packet = 24%nat →
     (∃ tag f1 f2 last,
        struct_unpack "<H B III f f B" packet =
          Ok [PyInt (le_uint (slice 0 2 packet)); PyInt tag;
              PyInt (le_uint (slice 3 4 packet)); PyInt (le_uint (slice 7 4 packet));
              PyInt (le_uint (slice 11 4 packet)); PyFloat32 f1; PyFloat32 f2;
              PyInt last])
     ∧ (fault = NoFault →
        fatigue_log (committed (db_conn self')) =
          fatigue_log (committed (db_conn self)) ++
            [FatigueRow (fatigue_seq (committed (db_conn self)) + 1) now
               (le_uint (slice 0 2 packet)) (le_uint (slice 3 4 packet))
               (le_uint (slice 7 4 packet)) (le_uint (slice 11 4 packet)) 0]))
  ∧ (length packet ≠ 24%nat →
       struct_unpack "<H B III f f B" packet = Raise StructError
       ∧ self' = logging ERROR "Failed to unpack LoRa packet" self
       ∧ fatigue_log (committed (db_conn self')) = fatigue_log (committed (db_conn self))
       ∧ logged ERROR (log self')).
Proof.
  intros Hidle self'. split; intros Hlen.
  - split; [rewrite (unpack_lora_24 _ Hlen); eauto|].
    intros ->. subst self'. unfold _process_lora_packet.
    rewrite (unpack_lora_24 _ Hlen). cbn [execute try_commit].
    unfold _check_alerting_rules.
    match goal with
    | |- context [check_rules_from ?rs ?n ?d ?s] =>
        destruct (check_rules_from_frame rs n d s) as (-> & _)
    end.
    cbn. rewrite Hidle. reflexivity.
  - subst self'. unfold _process_lora_packet.
    rewrite (unpack_lora_other _ Hlen). cbn.
    repeat split. exists "Failed to unpack LoRa packet". set_solver.
Qed.

Lemma lora_packet_is_24_bytes_witness :
  fatigue_log (committed (db_conn
     (_process_lora_packet "t0" NoFault scenario_packet (fresh_processor [])).1))
  = [FatigueRow 1 "t0" 1 5 10 20 0].
Proof.
  pose proof (lora_packet_is_24_bytes "t0" NoFault scenario_packet
                (fresh_processor []) eq_refl) as [H _].
  destruct (H eq_refl) as [_ H']. rewrite (H' eq_refl). reflexivity.
Defined.

(** ** C6: the scout-radio record *)

(** C6: a scout packet of exactly 5 bytes is decoded little-endian as
    (u8 node_id, i16 temperature, u16 humidity): the temperature is the
    two's complement reading of bytes 1 and 2, the humidity the unsigned
    reading of bytes 3 and 4.  Both readings are divided by [100.0] as
    doubles: the two quotients are finite doubles within [2^-44] of the
    rationals [temp_scaled/100] and [hum_scaled/100] (rounded values,
    not the rationals themselves).  The store accepting the insert,
    exactly one environment row with the node and the two quotients is
    committed and the fatigue table is left alone; on a store error no
    row is committed.  A scout packet of any other length is discarded
    with a warning and no row is written. *)
Theorem nrf_packet_is_5_bytes (now : string) (fault : db_fault)
    (payload : bytes) (self : processor) :
  idle (db_conn self) →
  let self' := (_process_nrf_packet now fault payload self).1 in
  let node := le_uint (slice 0 1 payload) in
  let raw_temp := le_uint (slice 1 2 payload) in
  let temp_scaled := if raw_temp <? 32768 then raw_temp else raw_temp - 65536 in
  let hum_scaled := le_uint (slice 3 2 payload) in
  (length payload = 5%nat →
     struct_unpack "<BhH" payload = Ok [PyInt node; PyInt temp_scaled; PyInt hum_scaled]
     ∧ 0 ≤ node < 256 ∧ -32768 ≤ temp_scaled < 32768 ∧ 0 ≤ hum_scaled < 65536
     ∧ (∃ t h : Q,
          float_value (PrimFloat.div (float_of_int temp_scaled) 100) = Some t
          ∧ float_value (PrimFloat.div (float_of_int hum_scaled) 100) = Some h
          ∧ (- half_ulp_1024 <= t - (temp_scaled # 100) <= half_ulp_1024)%Q
          ∧ (- half_ulp_1024 <= h - (hum_scaled # 100) <= half_ulp_1024)%Q)
     ∧ (fault = NoFault →
          environment_log (committed (db_conn self')) =
            environment_log (committed (db_conn self)) ++
              [EnvironmentRow (environment_seq (committed (db_conn self)) + 1) now node
                 (PrimFloat.div (float_of_int temp_scaled) 100)
                 (PrimFloat.div (float_of_int hum_scaled) 100)]
          ∧ fatigue_log (committed (db_conn self')) = fatigue_log (committed (db_conn self)))
     ∧ (fault ≠ NoFault → committed (db_conn self') = committed (db_conn self)))
  ∧ (length payload ≠ 5%nat →
       self' = logging WARNING "Received nRF packet of incorrect length" self
       ∧ environment_log (committed (db_conn self'))
         = environment_log (committed (db_conn self))
       ∧ logged WARNING (log self')).
Proof.
  intros Hidle self' node raw_temp temp_scaled hum_scaled.
  assert (0 ≤ node < 256) as Hn by apply (le_uint_slice_range 0 1 payload).
  assert (0 ≤ raw_temp < 65536) as Hr by apply (le_uint_slice_range 1 2 payload).
  assert (0 ≤ hum_scaled < 65536) as Hh by apply (le_uint_slice_range 3 2 payload).
  assert (-32768 ≤ temp_scaled < 32768) as Hs by apply (to_signed_16_range _ Hr).
  subst self'. unfold _process_nrf_packet. split.
  - intros Hlen. rewrite Hlen. cbn [Nat.eqb negb].
    rewrite (unpack_nrf_5 _ Hlen).
    change (to_signed 16 (le_uint (slice 1 2 payload))) with temp_scaled.
    fold node hum_scaled.
    split; [done|]. do 3 (split; [done|]). split; [|split].
    + pose proof (truediv_100_near temp_scaled) as H1.
      pose proof (truediv_100_near hum_scaled) as H2.
      rewrite double_near_spec in H1, H2.
      destruct H1 as (t & Et & Ht1); [lia|]. destruct H2 as (h & Eh & Hh1); [lia|].
      exists t, h. done.
    + intros ->. cbn. rewrite Hidle. done.
    + intros Hf. destruct fault; done.
  - intros Hlen. destruct (Nat.eqb_spec (length payload) 5); [done|]. cbn.
    repeat split. exists "Received nRF packet of incorrect length". set_solver.
Qed.

Lemma nrf_packet_is_5_bytes_witness :
  environment_log (committed (db_conn
     (_process_nrf_packet "t0" NoFault scout_packet_2 (fresh_processor [])).1))
  = [EnvironmentRow 1 "t0" 43 (-10) 36].
Proof.
  pose proof (nrf_packet_is_5_bytes "t0" NoFault scout_packet_2
                (fresh_processor []) eq_refl) as [H _].
  destruct (H eq_refl) as (_ & _ & _ & _ & _ & H' & _).
  destruct (H' eq_refl) as [-> _]. reflexivity.
Defined.

(** The quotient is a rounded double: the humidity reading 65535 is
    stored as the double nearest to 655.35, which is not 655.35. *)
Example scout_packet_rounded_humidity :
  environment_log (committed (db_conn
     (_process_nrf_packet "t0" NoFault [x07; x01; x00; xff; xff] (fresh_processor [])).1))
  = [EnvironmentRow 1 "t0" 7 (truediv 1 100) (truediv 65535 100)]
  ∧ float_value (truediv 65535 100) = Some (5764519562104013 # 8796093022208)
  ∧ ¬ (5764519562104013 # 8796093022208 == 65535 # 100)%Q.
Proof. split; [|split]; [vm_compute; reflexivity..|]. intros H. vm_compute in H. done. Qed.

Example scout_packet_2_decodes :
  struct_unpack "<BhH" scout_packet_2 = Ok [PyInt 43; PyInt (-1000); PyInt 3600].
Proof. reflexivity. Qed.

(** ** C7: alert rules *)

Lemma alert_for_Some (node : Z) (data : gmap string Z) (r : rule) :
  renders r →
  is_Some (alert_for node data r) ↔
  rule_node_id r = node
  ∧ ∃ value, data !! field_to_monitor r = Some value ∧ threshold r < value.
Proof.
  intros Hr. unfold alert_for. split.
  - intros [m Hm]. repeat case_match; try discriminate. eauto.
  - intros [Hn (value & Hv & Hlt)]. rewrite decide_True by done. rewrite Hv.
    rewrite decide_True by done. specialize (Hr node value).
    destruct (py_format _ _); [eauto | discriminate].
Qed.

Lemma check_rules_from_alerts (rs : list rule) (node : Z) (data : gmap string Z)
    (self : processor) :
  Forall renders rs →
  (length (items (alert_q self)) + length rs ≤ maxsize (alert_q self))%nat →
  (check_rules_from rs node data self).2 = Ok tt
  ∧ items (alert_q (check_rules_from rs node data self).1)
    = items (alert_q self) ++ omap (alert_for node data) rs.
Proof.
  revert self. induction rs as [|r rs IH]; intros self Hren Hroom.
  - cbn. by rewrite app_nil_r.
  - apply Forall_cons in Hren as [Hr Hren]. cbn [length] in Hroom.
    cbn [check_rules_from omap list_omap]. unfold alert_for at 1.
    destruct (Z.eqb_spec (rule_node_id r) node) as [Heq|Hne];
      [rewrite decide_True by done | rewrite decide_False by done; apply IH; [done|lia]].
    destruct (data !! field_to_monitor r) as [value|]; [|apply IH; [done|lia]].
    destruct (Z.ltb_spec (threshold r) value) as [Hlt|Hge];
      [rewrite decide_True by done | rewrite decide_False by lia; apply IH; [done|lia]].
    specialize (Hr node value).
    destruct (py_format _ _) as [alert_msg|]; [|discriminate].
    unfold put_nowait, q_full.
    replace (maxsize (alert_q self) <=? length (items (alert_q self)))%nat with false
      by (symmetry; apply Nat.leb_gt; lia).
    rewrite andb_false_r.
    match goal with
    | |- context [check_rules_from rs node data ?s] =>
        destruct (IH s Hren) as [-> ->]
    end.
    + cbn. rewrite length_app. cbn. lia.
    + cbn. by rewrite <- app_assoc.
Qed.

(** C7: for a primary packet whose row was committed, the alert queue
    having room and every template rendering, the alerts put on the queue
    are, rule by rule and in order, those of the rules whose node equals
    the packet's node and whose monitored field is strictly above the
    threshold; a value equal to the threshold gives no alert. *)
Theorem alert_iff_strictly_above (now : string) (packet : bytes) (self : processor) :
  length packet = 24%nat →
  Forall renders (rules self) →
  (length (items (alert_q self)) + length (rules self) ≤ maxsize (alert_q self))%nat →
  let node := le_uint (slice 0 2 packet) in
  let data := fatigue_data (le_uint (slice 3 4 packet)) (le_uint (slice 7 4 packet))
                           (le_uint (slice 11 4 packet)) in
  let self' := (_process_lora_packet now NoFault packet self).1 in
  items (alert_q self') = items (alert_q self) ++ omap (alert_for node data) (rules self)
  ∧ (∀ r, r ∈ rules self →
       is_Some (alert_for node data r) ↔
       rule_node_id r = node
       ∧ ∃ value, data !! field_to_monitor r = Some value ∧ threshold r < value)
  ∧ (∀ r, data !! field_to_monitor r = Some (threshold r) → alert_for node data r = None).
Proof.
  intros Hlen Hren Hroom node data self'. split; [|split].
  - subst self'. unfold _process_lora_packet.
    rewrite (unpack_lora_24 _ Hlen). cbn [execute try_commit].
    unfold _check_alerting_rules.
    match goal with
    | |- context [check_rules_from ?rs ?n ?d ?s] =>
        destruct (check_rules_from_alerts rs n d s) as [_ ->]; done
    end.
  - intros r Hin. apply alert_for_Some.
    by apply (proj1 (Forall_forall _ _) Hren).
  - intros r Hv. unfold alert_for. rewrite Hv.
    case_decide; [|done]. by rewrite decide_False by lia.
Qed.

Lemma alert_iff_strictly_above_witness :
  items (alert_q (_process_lora_packet "t0" NoFault scenario_packet
           (fresh_processor [Rule 1 "bin_3_cycles" 15 "N{node} val{value} thr{threshold}";
                             Rule 1 "bin_2_cycles" 10 "equal {value}";
                             Rule 2 "bin_3_cycles" 15 "other node"])).1)
  = ["N1 val20 thr15"].
Proof.
  assert (Hren : Forall renders
            [Rule 1 "bin_3_cycles" 15 "N{node} val{value} thr{threshold}";
             Rule 1 "bin_2_cycles" 10 "equal {value}";
             Rule 2 "bin_3_cycles" 15 "other node"]).
  { repeat constructor; intros node value; reflexivity. }
  destruct (alert_iff_strictly_above "t0" scenario_packet
              (fresh_processor [Rule 1 "bin_3_cycles" 15 "N{node} val{value} thr{threshold}";
                                Rule 1 "bin_2_cycles" 10 "equal {value}";
                                Rule 2 "bin_3_cycles" 15 "other node"])
              eq_refl Hren) as [H _].
  - cbn. lia.
  - rewrite H. vm_compute. reflexivity.
Defined.

(** ** C8: a failing insert or commit *)

Lemma process_lora_db_error (now : string) (fault : db_fault) (packet : bytes)
    (self : processor) :
  fault ≠ NoFault → length packet = 24%nat →
  _process_lora_packet now fault packet self
  = match fault with
    | ConnectionUnusable =>
        (logging ERROR "Database error for fatigue_log" self, Raise SqliteError)
    | _ =>
        (set_db_conn (rollback (db_conn self))
           (logging ERROR "Database error for fatigue_log" self), Ok tt)
    end.
Proof.
  intros Hf Hlen. unfold _process_lora_packet. rewrite (unpack_lora_24 _ Hlen).
  destruct fault; done.
Qed.

Lemma tick_db_error (now : string) (fault : db_fault) (packet : bytes)
    (rest : list bytes) (t : thread) :
  fault ≠ NoFault → length packet = 24%nat →
  pos t = InHighLoop → items (high_prio_q (self t)) = packet :: rest →
  let s := logging ERROR "Database error for fatigue_log"
             (set_high_prio_q (Queue rest (maxsize (high_prio_q (self t)))) (self t)) in
  tick now fault t
  = match fault with
    | ConnectionUnusable =>
        Thread (logging ERROR "An error occurred in the data processing loop" s)
               InHighLoop false (history t ++ [(High, packet)])
    | _ =>
        Thread (set_db_conn (rollback (db_conn (self t))) s)
               InHighLoop true (history t ++ [(High, packet)])
    end.
Proof.
  intros Hf Hlen Hpos Hq. unfold tick. rewrite Hpos. unfold q_empty, get_nowait. rewrite Hq.
  rewrite process_lora_db_error by done. destruct fault; done.
Qed.

(** C8: when the insert or the commit of a fatigue row fails, the
    handler logs the database error and calls [rollback()].  If the
    failure is of that one call, the transaction is rolled back and the
    call returns normally.  If the connection fails every call (it is
    used from a thread that did not make it), [rollback()] raises as
    well: nothing was executed on the connection, which is left as it
    was, and the exception leaves [_process_lora_packet] for the handler
    [except Exception] of [run], which logs it.  In both cases no row is
    written, no alert rule is evaluated (the alert queue is as before and
    the new log lines are those of the error), the packet is off the
    queue, the thread is back at the test of its high-priority loop and
    its next step takes the next item of the queue. *)
Theorem db_error_rolls_back_and_skips (now now' : string) (fault fault' : db_fault)
    (packet next : bytes) (rest : list bytes) (t : thread) :
  fault ≠ NoFault →
  length packet = 24%nat →
  pos t = InHighLoop →
  items (high_prio_q (self t)) = packet :: next :: rest →
  (∀ s, _process_lora_packet now fault packet s
        = match fault with
          | ConnectionUnusable =>
              (logging ERROR "Database error for fatigue_log" s, Raise SqliteError)
          | _ =>
              (set_db_conn (rollback (db_conn s))
                 (logging ERROR "Database error for fatigue_log" s), Ok tt)
          end)
  ∧ let t1 := tick now fault t in
    db_conn (self t1)
    = match fault with
      | ConnectionUnusable => db_conn (self t)
      | _ => rollback (db_conn (self t))
      end
    ∧ committed (db_conn (self t1)) = committed (db_conn (self t))
    ∧ (idle (db_conn (self t)) ∨ fault ≠ ConnectionUnusable → idle (db_conn (self t1)))
    ∧ alert_q (self t1) = alert_q (self t)
    ∧ log (self t1)
      = log (self t) ++ Log ERROR "Database error for fatigue_log" ::
          match fault with
          | ConnectionUnusable =>
              [Log ERROR "An error occurred in the data processing loop"]
          | _ => []
          end
    ∧ pos t1 = InHighLoop
    ∧ items (high_prio_q (self t1)) = next :: rest
    ∧ low_prio_q (self t1) = low_prio_q (self t)
    ∧ history t1 = history t ++ [(High, packet)]
    ∧ history (tick now' fault' t1) = history t ++ [(High, packet); (High, next)].
Proof.
  intros Hf Hlen Hpos Hq. split; [intros s; by apply process_lora_db_error|].
  intros t1. subst t1. rewrite (tick_db_error now fault packet (next :: rest) t) by done.
  assert (∀ t1 : thread,
            pos t1 = InHighLoop → items (high_prio_q (self t1)) = next :: rest →
            history t1 = history t ++ [(High, packet)] →
            history (tick now' fault' t1) = history t ++ [(High, packet); (High, next)])
    as Hnext.
  { intros t1 Hp1 Hq1 Hh1. unfold tick, q_empty, get_nowait. rewrite Hp1, Hq1.
    destruct (_process_lora_packet _ _ _ _) as [s' [[]|e]]; cbn;
      by rewrite Hh1, <- app_assoc. }
  destruct fault; [done|..]; (repeat split; [..|by apply Hnext]); cbn; try done.
  - intros [Hi|]; done.
  - by rewrite <- app_assoc.
Qed.

Lemma db_error_rolls_back_and_skips_witness :
  let t := Thread (Processor (Queue [scenario_packet; scenario_packet] 100) (Queue [] 500)
                     (Queue [] 50) [Rule 1 "bin_3_cycles" 15 "N{node}"]
                     (connect empty_db) [])
                  InHighLoop false [] in
  db_conn (self (tick "t1" ConnectionUnusable t)) = connect empty_db
  ∧ alert_q (self (tick "t1" ConnectionUnusable t)) = Queue [] 50
  ∧ log (self (tick "t1" ConnectionUnusable t))
    = [Log ERROR "Database error for fatigue_log";
       Log ERROR "An error occurred in the data processing loop"]
  ∧ history (tick "t2" NoFault (tick "t1" ConnectionUnusable t))
    = [(High, scenario_packet); (High, scenario_packet)].
Proof.
  intros t.
  destruct (db_error_rolls_back_and_skips "t1" "t2" ConnectionUnusable NoFault
              scenario_packet scenario_packet [] t)
    as (_ & Hc & _ & _ & Ha & Hl & _ & _ & _ & _ & Hh); try done.
Defined.

(** A failing commit alone: the pending insert is rolled back and the
    call returns normally. *)
Example commit_failure_is_rolled_back :
  let s := Processor (Queue [] 100) (Queue [] 500) (Queue [] 50)
             [Rule 1 "bin_3_cycles" 15 "N{node}"] (connect empty_db) [] in
  _process_lora_packet "t1" CommitFails scenario_packet s
  = (logging ERROR "Database error for fatigue_log" s, Ok tt).
Proof. reflexivity. Qed.

(** ** C2: the priority loop *)

(** While the thread is in its high-priority loop it takes nothing off
    the low-priority queue, and it leaves that loop only on finding the
    high-priority queue empty. *)
Lemma tick_in_high_loop (now : string) (fault : db_fault) (t : thread) :
  pos t = InHighLoop →
  low_prio_q (self (tick now fault t)) = low_prio_q (self t)
  ∧ (pos (tick now fault t) = InLowLoop → items (high_prio_q (self t)) = [])
  ∧ (∀ p rest, items (high_prio_q (self t)) = p :: rest →
       pos (tick now fault t) = InHighLoop
       ∧ items (high_prio_q (self (tick now fault t))) = rest
       ∧ history (tick now fault t) = history t ++ [(High, p)]).
Proof.
  intros Hpos. unfold tick, q_empty, get_nowait. rewrite Hpos.
  destruct (items (high_prio_q (self t))) as [|p rest] eqn:Hq; [done|].
  pose proof (process_lora_frame now fault p
                (set_high_prio_q (Queue rest (maxsize (high_prio_q (self t)))) (self t)))
    as (Hh & Hl & _).
  destruct (_process_lora_packet _ _ _ _) as [s [[]|e]]; cbn in *;
    rewrite Hh, Hl; (split; [done|]); (split; [done|]);
    intros p' rest' [= <- <-]; done.
Qed.

(** X21: with no arrival in between, the packets waiting on the
    high-priority queue are all taken, in the order they were put,
    whether or not their handling fails, before the thread reaches its
    low-priority loop; the low-priority queue is untouched meanwhile. *)
Lemma high_drained_first (ticks : list (string * db_fault)) (t : thread) :
  pos t = InHighLoop →
  length ticks = length (items (high_prio_q (self t))) →
  let t' := run (map (λ nf, Tick nf.1 nf.2) ticks) t in
  pos t' = InHighLoop
  ∧ items (high_prio_q (self t')) = []
  ∧ low_prio_q (self t') = low_prio_q (self t)
  ∧ history t' = history t ++ map (pair High) (items (high_prio_q (self t))).
Proof.
  revert t. induction ticks as [|[now fault] ticks IH]; intros t Hpos Hlen.
  - destruct (items (high_prio_q (self t))) eqn:Hq; [|done].
    cbn. rewrite Hq. cbn. by rewrite app_nil_r.
  - destruct (items (high_prio_q (self t))) as [|p rest] eqn:Hq; [done|].
    destruct (tick_in_high_loop now fault t Hpos) as (Hl & _ & Hstep).
    destruct (Hstep p rest Hq) as (Hpos' & Hq' & Hh').
    cbn [map run foldl perform fst snd].
    specialize (IH (tick now fault t) Hpos').
    rewrite Hq' in IH. cbn in Hlen.
    destruct IH as (H1 & H2 & H3 & H4); [lia|].
    unfold run in *. rewrite H1, H2, H3, H4, Hl, Hh'. cbn.
    by rewrite <- app_assoc.
Qed.

(** C2 at the failing schedule: the thread has handled the first of two
    waiting scout packets when a primary packet is put on the
    high-priority queue; its next step takes the second scout packet, and
    the primary packet is served only after the low-priority queue is
    empty. *)
Theorem low_drain_ignores_late_high_packet :
  let before := run (take 3 late_high_schedule) thread_two_low in
  pos before = InLowLoop
  ∧ items (high_prio_q (self before)) = [scenario_packet]
  ∧ history before = [(Low, scout_packet)]
  ∧ history (tick "t3" NoFault before) = [(Low, scout_packet); (Low, scout_packet_2)]
  ∧ items (high_prio_q (self (tick "t3" NoFault before))) = [scenario_packet]
  ∧ history (run late_high_schedule thread_two_low)
    = [(Low, scout_packet); (Low, scout_packet_2); (High, scenario_packet)].
Proof. vm_compute. done. Qed.

(** ** The store invariant *)

Lemma sorted_filter {A} (R : relation A) (P : A → Prop) `{!∀ x, Decision (P x)}
    (l : list A) :
  StronglySorted R l → StronglySorted R (filter P l).
Proof.
  induction 1 as [|x l Hs IH Hall]; [constructor|].
  rewrite filter_cons. case_decide; [|done].
  constructor; [done|].
  rewrite Forall_forall in *. intros y Hy. apply list_elem_of_filter in Hy as [_ Hy]. auto.
Qed.

Lemma store_ok_empty : store_ok empty_db.
Proof. split; constructor. Qed.

Lemma store_ok_insert_fatigue (now : string) (node b1 b2 b3 : Z) (db : database) :
  store_ok db → store_ok (insert_fatigue now node b1 b2 b3 db).
Proof.
  intros [Hs Hle]. split; cbn.
  - apply StronglySorted_app_2; [|done|repeat constructor].
    intros x1 x2 H1 ->%list_elem_of_singleton. unfold rowid_lt. cbn.
    rewrite Forall_forall in Hle. specialize (Hle _ H1). lia.
  - apply Forall_app. split; [|repeat constructor; cbn; lia].
    eapply Forall_impl; [done|]. cbn. intros; lia.
Qed.

Lemma store_ok_insert_environment (now : string) (node : Z) (t h : float) (db : database) :
  store_ok db → store_ok (insert_environment now node t h db).
Proof. intros [Hs Hle]. by split. Qed.

Lemma store_ok_mark_sent (ids : list Z) (db : database) :
  store_ok db → store_ok (mark_sent ids db).
Proof.
  intros [Hs Hle]. split; cbn.
  - eapply (StronglySorted_fmap _ rowid_lt rowid_lt); [|done].
    intros x y Hxy. unfold rowid_lt in *. by repeat case_bool_decide.
  - apply Forall_fmap. eapply Forall_impl; [done|].
    intros r Hr. cbn. by case_bool_decide.
Qed.

(** ** C9: what an upload selects *)

Lemma forward_skips_without_unsent (json_dumps : list payload_item → string)
    (fault : db_fault) (db : database) (self : CommunicationsThread) :
  select_unsent db = [] →
  forward_data_to_cloud json_dumps fault db self
  = ((db, comm_logging INFO "No new data to send."
            (comm_logging INFO "Checking for data to forward to the cloud..." self)),
     Ok tt).
Proof.
  intros Hsel. unfold forward_data_to_cloud. cbn [connect working]. by rewrite Hsel.
Qed.

Lemma cloud_upload_due_spec (now last : Q) :
  cloud_upload_due now last = true ↔ (900 < now - last)%Q.
Proof.
  unfold cloud_upload_due. rewrite negb_true_iff. split.
  - intros H. apply Qnot_le_lt. intros Hle. apply Qle_bool_iff in Hle. congruence.
  - intros H. destruct (Qle_bool (now - last) 900) eqn:E; [|done].
    apply Qle_bool_iff in E. by apply Qlt_not_le in H.
Qed.

(** The batch of an upload. *)
Lemma select_unsent_batch (db : database) :
  store_ok db →
  let batch := select_unsent db in
  (length batch ≤ 50)%nat
  ∧ (∀ r, r ∈ batch → r ∈ fatigue_log db ∧ sent_to_cloud r = 0)
  ∧ StronglySorted rowid_lt batch
  ∧ (∀ r, r ∈ fatigue_log db → sent_to_cloud r = 0 → r ∉ batch →
       length batch = 50%nat ∧ ∀ b, b ∈ batch → log_id b < log_id r).
Proof.
  intros [Hs _] batch. subst batch. unfold select_unsent.
  set (unsent := filter (λ r, sent_to_cloud r = 0) (fatigue_log db)).
  assert (Hsorted : StronglySorted rowid_lt unsent) by by apply sorted_filter.
  rewrite <- (take_drop 50 unsent) in Hsorted.
  repeat split.
  - rewrite length_take. lia.
  - apply elem_of_take in H as (i & Hi & _).
    apply list_elem_of_lookup_2 in Hi. by apply list_elem_of_filter in Hi as [_ ?].
  - apply elem_of_take in H as (i & Hi & _).
    apply list_elem_of_lookup_2 in Hi. by apply list_elem_of_filter in Hi as [? _].
  - by apply StronglySorted_app_1_l in Hsorted.
  - assert (Hin : r ∈ take 50 unsent ++ drop 50 unsent)
      by (rewrite take_drop; by apply list_elem_of_filter).
    apply elem_of_app in Hin as [?|Hin]; [done|].
    apply length_take_le.
    destruct (decide (50 ≤ length unsent)%nat); [done|].
    rewrite drop_ge in Hin by lia. by apply elem_of_nil in Hin.
  - intros b Hb.
    assert (Hin : r ∈ take 50 unsent ++ drop 50 unsent)
      by (rewrite take_drop; by apply list_elem_of_filter).
    apply elem_of_app in Hin as [?|Hin]; [done|].
    by apply (StronglySorted_app_1_elem_of _ _ _ _ _ Hsorted).
Qed.

(** What [forward_data_to_cloud] does with a batch that is not empty. *)
Lemma forward_uploads_batch (json_dumps : list payload_item → string)
    (fault : db_fault) (db : database) (self : CommunicationsThread) :
  select_unsent db ≠ [] →
  let out := forward_data_to_cloud json_dumps fault db self in
  let post := _http_post_payload (json_dumps (payload_data (select_unsent db)))
                (sim_manager self) in
  sim_manager out.1.2 = post.2
  ∧ comm_alert_q out.1.2 = comm_alert_q self
  ∧ (post.1 = Ok true → fault = NoFault →
       out.2 = Ok tt ∧ out.1.1 = mark_sent (log_id <$> select_unsent db) db)
  ∧ (post.1 = Ok true → fault ≠ NoFault → out.2 = Raise SqliteError ∧ out.1.1 = db)
  ∧ (post.1 = Ok false → out.2 = Ok tt ∧ out.1.1 = db)
  ∧ (∀ e, post.1 = Raise e → out.2 = Raise e ∧ out.1.1 = db).
Proof.
  intros Hne out post. subst out post. unfold forward_data_to_cloud.
  cbn [connect working comm_logging sim_manager].
  destruct (select_unsent db) as [|r rs] eqn:Hsel; [done|].
  destruct (_http_post_payload _ _) as [[[]|e] m]; cbn [fst snd].
  - destruct fault; cbn; repeat split; try done; intros; simplify_eq.
  - cbn. repeat split; try done; intros; simplify_eq.
  - cbn. repeat split; try done; intros; simplify_eq. done.
Qed.

Lemma filter_mark_sent (ids : list Z) (rows : list fatigue_row) :
  filter (λ r, sent_to_cloud r = 0)
    ((λ r, if bool_decide (log_id r ∈ ids)
           then FatigueRow (log_id r) (timestamp r) (node_id r) (bin_1_cycles r)
                           (bin_2_cycles r) (bin_3_cycles r) 1
           else r) <$> rows)
  = filter (λ r, log_id r ∉ ids) (filter (λ r, sent_to_cloud r = 0) rows).
Proof.
  induction rows as [|r rows IH]; [done|].
  cbn [fmap list_fmap]. case_bool_decide as Hin.
  - rewrite filter_cons_False by done. rewrite IH.
    destruct (decide (sent_to_cloud r = 0)) as [H0|H0].
    + rewrite (filter_cons_True (λ r, sent_to_cloud r = 0)) by done.
      by rewrite filter_cons_False by naive_solver.
    + by rewrite (filter_cons_False (λ r, sent_to_cloud r = 0)) by done.
  - destruct (decide (sent_to_cloud r = 0)) as [H0|H0].
    + rewrite !(filter_cons_True (λ r, sent_to_cloud r = 0)) by done.
      rewrite (filter_cons_True (λ r, log_id r ∉ ids)) by done.
      by rewrite IH.
    + rewrite !(filter_cons_False (λ r, sent_to_cloud r = 0)) by done. by rewrite IH.
Qed.

Lemma filter_none {A} (P : A → Prop) `{!∀ x, Decision (P x)} (l : list A) :
  Forall (λ x, ¬ P x) l → filter P l = [].
Proof.
  induction 1 as [|x l Hx _ IH]; [done|]. by rewrite filter_cons_False.
Qed.

Lemma filter_all {A} (P : A → Prop) `{!∀ x, Decision (P x)} (l : list A) :
  Forall P l → filter P l = l.
Proof.
  induction 1 as [|x l Hx _ IH]; [done|]. rewrite filter_cons_True by done.
  by rewrite IH.
Qed.

Lemma filter_not_in_taken (n : nat) (l : list fatigue_row) :
  StronglySorted rowid_lt l →
  filter (λ r, log_id r ∉ (log_id <$> take n l)) l = drop n l.
Proof.
  intros Hs. set (ids := log_id <$> take n l).
  rewrite <- (take_drop n l) at 1. rewrite <- (take_drop n l) in Hs.
  rewrite filter_app.
  rewrite (filter_none _ (take n l)), (filter_all _ (drop n l)); [done| |].
  - apply Forall_forall. intros r Hr Hin.
    apply list_elem_of_fmap in Hin as (b & Hid & Hb).
    pose proof (StronglySorted_app_1_elem_of _ _ _ _ _ Hs Hb Hr) as Hlt.
    unfold rowid_lt in Hlt. lia.
  - apply Forall_forall. intros r Hr Hn. apply Hn. by apply list_elem_of_fmap_2.
Qed.

(** After an acknowledged upload the next batch is made of the unsent
    rows that come after the batch in the table. *)
Lemma select_unsent_after_mark (db : database) :
  store_ok db →
  select_unsent (mark_sent (log_id <$> select_unsent db) db)
  = take 50 (drop 50 (filter (λ r, sent_to_cloud r = 0) (fatigue_log db))).
Proof.
  intros [Hs _]. unfold select_unsent at 1. cbn [mark_sent fatigue_log].
  rewrite filter_mark_sent. unfold select_unsent.
  rewrite filter_not_in_taken; [done|]. by apply sorted_filter.
Qed.

Lemma store_ok_db_51_unsent : store_ok db_51_unsent.
Proof. apply (bool_decide_unpack _). vm_compute. exact I. Qed.

(** C9, as the claim has it, fails on the trigger: uploads are not
    spaced 15 minutes from the start of the loop.  [run] starts
    [last_cloud_upload_time] 880 s before the loop, so the iteration
    that tests the clock 21 s after the start uploads (the three unsent
    rows are marked); the time is then set to the clock read when the
    upload has returned, here 30 s after the start, and the tests 900 s
    and 930 s after the start find no upload due: the next one is due
    once more than 900 s have passed since that return. *)
Lemma upload_due_21_s_after_start :
  let start := 0%Q in
  let loc := RunLocals true (initial_last_cloud_upload_time start) in
  let out := run_iteration (λ _, "[]") None 21 30 NoFault loc db_three_unsent
               (comm_with_modem "+HTTPACTION: 1,200,0") in
  cloud_upload_due 21 (initial_last_cloud_upload_time start) = true
  ∧ sent_to_cloud <$> fatigue_log out.1.1.1 = [1; 1; 1]
  ∧ last_cloud_upload_time out.1.2 = 30%Q
  ∧ cloud_upload_due 900 (last_cloud_upload_time out.1.2) = false
  ∧ cloud_upload_due 930 (last_cloud_upload_time out.1.2) = false
  ∧ cloud_upload_due 931 (last_cloud_upload_time out.1.2) = true.
Proof. vm_compute. done. Qed.

(** C9 (amended): an upload is attempted in an iteration of [run] that
    reaches the test exactly when more than 900 seconds have passed
    since [last_cloud_upload_time], which [run] starts 880 s before the
    loop (the first upload is due 20 s after the start) and sets, when
    the upload returns, to the clock read then.  The upload selects the
    first up to 50 rows of [fatigue_log] with [sent_to_cloud = 0] in the
    order of the table scan (the query has no ORDER BY); the table being
    kept in rowid order, the batch is in increasing rowid order and a row
    with [sent_to_cloud = 0] that is left out has a larger rowid than
    every row of a full batch.  With no such row the upload is skipped:
    two lines are logged, store and modem are left as they were.
    Otherwise what is posted is the JSON text of exactly the batch, and
    when the post is acknowledged and the UPDATE succeeds exactly the
    rowids of the batch are marked, so that the next batch is made of
    the unsent rows that follow. *)
Theorem upload_selects_first_50_unsent (json_dumps : list payload_item → string)
    (fault : db_fault) (db : database) (self : CommunicationsThread) :
  store_ok db →
  let unsent := filter (λ r, sent_to_cloud r = 0) (fatigue_log db) in
  let batch := select_unsent db in
  let out := forward_data_to_cloud json_dumps fault db self in
  let post := _http_post_payload (json_dumps (payload_data batch)) (sim_manager self) in
  (batch = take 50 unsent
   ∧ (length batch ≤ 50)%nat
   ∧ (∀ r, r ∈ batch → r ∈ fatigue_log db ∧ sent_to_cloud r = 0)
   ∧ StronglySorted rowid_lt batch
   ∧ (∀ r, r ∈ fatigue_log db → sent_to_cloud r = 0 → r ∉ batch →
        length batch = 50%nat ∧ ∀ b, b ∈ batch → log_id b < log_id r))
  ∧ (batch = [] →
       out = ((db, comm_logging INFO "No new data to send."
                     (comm_logging INFO "Checking for data to forward to the cloud..."
                        self)), Ok tt))
  ∧ (batch ≠ [] →
       sim_manager out.1.2 = post.2
       ∧ (post.1 = Ok true → fault = NoFault →
            out.2 = Ok tt
            ∧ out.1.1 = mark_sent (log_id <$> batch) db
            ∧ select_unsent out.1.1 = take 50 (drop 50 unsent))
       ∧ (post.1 ≠ Ok true ∨ fault ≠ NoFault → out.1.1 = db))
  ∧ (∀ now start,
       cloud_upload_due now (initial_last_cloud_upload_time start) = true
       ↔ (20 < now - start)%Q)
  ∧ (∀ now now' last,
       let step := periodic_forwarding json_dumps now now' fault last db self in
       ((900 < now - last)%Q →
          step.1.1.1 = out.1.1 ∧ step.1.1.2 = out.1.2 ∧ step.2 = out.2
          ∧ step.1.2 = if is_ok out.2 then now' else last)
       ∧ ((now - last <= 900)%Q → step = ((db, self, last), Ok tt))).
Proof.
  intros Hok unsent batch out post.
  split; [split; [done|by apply select_unsent_batch]|].
  split; [intros Hb; by apply forward_skips_without_unsent|].
  split; [|split].
  - intros Hne.
    destruct (forward_uploads_batch json_dumps fault db self Hne)
      as (Hm & _ & Hack & Hfault & Hnack & Hraise).
    fold batch out post in Hm, Hack, Hfault, Hnack, Hraise.
    split; [done|]. split.
    + intros Hp Hf. destruct (Hack Hp Hf) as [Hr Hdb]. split; [done|]. split; [done|].
      rewrite Hdb. by apply select_unsent_after_mark.
    + intros Hcase. destruct (post.1) as [[]|e] eqn:Hp.
      * destruct Hcase as [?|Hf]; [done|]. by apply Hfault.
      * by apply Hnack.
      * by apply (Hraise e).
  - intros now start. rewrite cloud_upload_due_spec.
    unfold initial_last_cloud_upload_time. lra.
  - intros now now' last step. subst step. unfold periodic_forwarding. split.
    + intros Hdue%cloud_upload_due_spec. rewrite Hdue. fold out.
      destruct out as [[db' self'] [[]|e]]; done.
    + intros Hle. destruct (cloud_upload_due now last) eqn:Hdue; [|done].
      apply cloud_upload_due_spec in Hdue. by apply Qlt_not_le in Hdue.
Qed.

Lemma upload_selects_first_50_unsent_witness :
  log_id <$> select_unsent db_51_unsent = seqZ 1 50
  ∧ sent_to_cloud <$> fatigue_log
      (forward_data_to_cloud (λ _, "[]") NoFault db_51_unsent
         (comm_with_modem "+HTTPACTION: 1,200,0")).1.1
    = replicate 50 1 ++ [0]
  ∧ log_id <$> select_unsent
      (forward_data_to_cloud (λ _, "[]") NoFault db_51_unsent
         (comm_with_modem "+HTTPACTION: 1,200,0")).1.1
    = [51].
Proof.
  destruct (upload_selects_first_50_unsent (λ _, "[]") NoFault db_51_unsent
              (comm_with_modem "+HTTPACTION: 1,200,0") store_ok_db_51_unsent)
    as ([Hb _] & _ & Hup & _).
  destruct Hup as (_ & Hack & _); [by rewrite Hb|].
  destruct Hack as (_ & Hdb & Hnext); [by vm_compute..|].
  rewrite Hnext, Hdb, Hb. vm_compute. done.
Defined.

(** ** C1: marking rows as sent *)

Lemma mark_sent_lookup (ids : list Z) (db : database) (i : nat) :
  fatigue_log (mark_sent ids db) !! i
  = (λ r, if bool_decide (log_id r ∈ ids)
          then FatigueRow (log_id r) (timestamp r) (node_id r) (bin_1_cycles r)
                          (bin_2_cycles r) (bin_3_cycles r) 1
          else r) <$> fatigue_log db !! i.
Proof. cbn. apply list_lookup_fmap. Qed.

(** The store changes only when [_http_post_payload] has returned [True],
    and then by the one UPDATE on the rowids of the batch. *)
Lemma forward_updates_only_after_true (json_dumps : list payload_item → string)
    (fault : db_fault) (db : database) (self : CommunicationsThread) :
  let db' := (forward_data_to_cloud json_dumps fault db self).1.1 in
  db' = db
  ∨ (∃ payload m, _http_post_payload payload (sim_manager self) = (Ok true, m))
    ∧ fault = NoFault
    ∧ db' = mark_sent (log_id <$> select_unsent db) db.
Proof.
  unfold forward_data_to_cloud. cbn [connect working].
  destruct (select_unsent db) as [|r rs] eqn:Hsel; [by left|].
  destruct (_http_post_payload _ _) as [[[]|e] m] eqn:Hpost; [|by left..].
  destruct fault; [right | by left..]. eauto.
Qed.

Lemma post_false_without_modem (payload : string) :
  _http_post_payload payload None = (Ok false, None).
Proof. reflexivity. Qed.

(** Scenario 4: the modem reports status 200 and the three rows are
    marked. *)
Example upload_status_200 (json_dumps : list payload_item → string) :
  sent_to_cloud <$> fatigue_log
    (forward_data_to_cloud json_dumps NoFault db_three_unsent
       (comm_with_modem "+HTTPACTION: 1,200,0")).1.1
  = [1; 1; 1].
Proof. vm_compute. reflexivity. Qed.

(** Scenario 5: the modem reports status 500 and no row changes. *)
Example upload_status_500 (json_dumps : list payload_item → string) :
  (forward_data_to_cloud json_dumps NoFault db_three_unsent
     (comm_with_modem "+HTTPACTION: 1,500,0")).1.1
  = db_three_unsent.
Proof. vm_compute. reflexivity. Qed.

(** The POST never gets an answer before the deadline: no row changes. *)
Example upload_timeout (json_dumps : list payload_item → string) :
  (forward_data_to_cloud json_dumps NoFault db_three_unsent
     (Communications
        (Some (Manager (Some (Serial (take 11 (modem_script "") ++ [Deadline]) []))))
        (Queue [] 50) [])).1.1
  = db_three_unsent.
Proof. vm_compute. reflexivity. Qed.

(** C1 at the failing input: the modem reports the POST answered with
    status 401 and a body of 200 bytes ([+HTTPACTION: 1,401,200]).  The
    test [["1,200" in response]] holds of that line, so
    [_http_post_payload] returns [True] and the three rows of the batch
    are marked as sent. *)
Theorem upload_marks_rows_sent_on_status_401 (json_dumps : list payload_item → string) :
  str_in "1,200" "+HTTPACTION: 1,401,200" = true
  ∧ (_http_post_payload (json_dumps [])
       (sim_manager (comm_with_modem "+HTTPACTION: 1,401,200"))).1 = Ok true
  ∧ (forward_data_to_cloud json_dumps NoFault db_three_unsent
       (comm_with_modem "+HTTPACTION: 1,401,200")).2 = Ok tt
  ∧ sent_to_cloud <$> fatigue_log
      (forward_data_to_cloud json_dumps NoFault db_three_unsent
         (comm_with_modem "+HTTPACTION: 1,401,200")).1.1
    = [1; 1; 1].
Proof. vm_compute. done. Qed.

(** ** C4: archive, then purge *)


Lemma filter_split {A} (P : A → Prop) `{!∀ x, Decision (P x)} (l : list A) (x : A) :
  x ∈ l ↔ x ∈ filter P l ∨ x ∈ filter (λ y, ¬ P y) l.
Proof.
  rewrite !list_elem_of_filter. destruct (decide (P x)); naive_solver.
Qed.

Example scenario_6 :
  let '(w, events) := archive_and_purge env_archive_ok
                        (ArchiveWorld db_old_and_recent [] []) in
  (data_rows <$> archive_dir w) = [[FatigueRow 1 "2024-07-30T08:00:00" 1 5 10 20 1]]
  ∧ fatigue_log (store w) = [FatigueRow 2 "2025-05-26T08:00:00.250000" 1 6 10 20 0]
  ∧ events = [ArchiveClosed (ArchiveFile "fatigue_log_archive_20250903_080000.csv.gz"
                               fatigue_header
                               [FatigueRow 1 "2024-07-30T08:00:00" 1 5 10 20 1]);
              PurgeCommitted].
Proof. vm_compute. done. Qed.





(** ** The bus lock *)

Lemma holder_from_app (h : option worker) (l1 l2 : list bus_event) :
  holder_from h (l1 ++ l2) = holder_from (holder_from h l1) l2.
Proof. apply foldl_app. Qed.

Lemma inside_from_app (h : option worker) (l1 l2 : list bus_event) :
  inside_from h (l1 ++ l2) = inside_from h l1 && inside_from (holder_from h l1) l2.
Proof.
  revert h. induction l1 as [|e l1 IH]; intros h; [done|].
  cbn. rewrite IH. by rewrite andb_assoc.
Qed.

Lemma inside_from_spec (evs : list bus_event) :
  inside_from None evs = true → enqueues_inside_scope evs.
Proof.
  intros H pre w payload post ->. unfold holder_after.
  rewrite inside_from_app in H. apply andb_true_iff in H as [_ H].
  cbn in H. apply andb_true_iff in H as [H _]. by apply bool_decide_eq_true in H.
Qed.

(** Events of a worker on its queue neither move the lock nor enqueue for
    anybody else. *)
Lemma queue_events_inside (who : worker) (evs : list bus_event) :
  Forall (queue_event_of who) evs →
  inside_from (Some who) evs = true ∧ holder_from (Some who) evs = Some who.
Proof.
  induction 1 as [|e evs He _ [IH1 IH2]]; [done|].
  destruct e; cbn in He; try done; subst; cbn;
    rewrite ?bool_decide_eq_true_2 by done; done.
Qed.

(** The events of a [with] block whose body only touches its queue. *)
Lemma with_acquire_scope {S A : Type} (who : worker) (device speed : Z)
    (f : spi_faults) (body : SpiDev → S → S * list bus_event * result A)
    (b : SPILock) (s : S) :
  _lock b = None →
  (∀ spi s, Forall (queue_event_of who) (body spi s).1.2) →
  ∃ b' s' r evs,
    with_acquire who device speed f body b s = Some (b', s', r)
    ∧ trace b' = trace b ++ evs
    ∧ inside_from None evs = true
    ∧ holder_from None evs = None
    ∧ _lock b' = None.
Proof.
  intros Hfree Hbody. unfold with_acquire, __enter__, lock_acquire. rewrite Hfree.
  destruct (open_raises f).
  { eexists _, _, _, [LockAcquired who; SpiOpenFailed device; LockReleased who].
    split; [done|]. cbn. by rewrite <- !app_assoc. }
  destruct (speed_raises f).
  { eexists _, _, _, [LockAcquired who; SpiOpened device; LockReleased who].
    split; [done|]. cbn. by rewrite <- !app_assoc. }
  specialize (Hbody (spidev device) s).
  destruct (body (spidev device) s) as [[s' evs] r]. cbn in Hbody.
  destruct (queue_events_inside who evs Hbody) as [Hin Hh].
  exists (__exit__ who f
            (emit evs (Bus (Some who) (Some device) speed
                           ((trace b ++ [LockAcquired who]) ++ [SpiOpened device])))),
    s', r,
    ([LockAcquired who; SpiOpened device] ++ evs
       ++ [if close_raises f then SpiCloseFailed else SpiClosed; LockReleased who]).
  split; [done|]. split; [|split; [|split]].
  - unfold __exit__. destruct (close_raises f); cbn; by rewrite <- !app_assoc.
  - cbn. rewrite inside_from_app, Hin, Hh. by destruct (close_raises f).
  - cbn. unfold holder_from in *. rewrite foldl_app, Hh. by destruct (close_raises f).
  - unfold __exit__. by destruct (close_raises f).
Qed.

(** ** C5: the acquisition scope *)

(** C5: a thread that finds the lock free gets through [__enter__]; it
    holds the lock afterwards exactly when a handle was returned, the
    device then being open at the requested speed, and when opening
    fails the lock has been released by the time the error is raised.
    [__exit__] closes the device and then releases the lock, also when
    the close fails.  So the lock is free after the [with] block however
    the body ends, and while it is held no other [__enter__] returns. *)
Theorem bus_released_on_every_exit_path {S A : Type} (who : worker) (device speed : Z)
    (f : spi_faults) (body : SpiDev → S → S * list bus_event * result A)
    (b : SPILock) (s : S) :
  _lock b = None →
  (∃ b1 r, __enter__ who device speed f b = Some (b1, r)
     ∧ (_lock b1 = Some who ↔ ∃ spi, r = Ok spi)
     ∧ (∀ spi, r = Ok spi → _spi b1 = Some device ∧ max_speed_hz b1 = speed)
     ∧ (∀ e, r = Raise e →
          _lock b1 = None ∧ last (trace b1) = Some (LockReleased who)))
  ∧ (∀ b1, _lock (__exit__ who f b1) = None
       ∧ trace (__exit__ who f b1)
         = trace b1 ++ [if close_raises f then SpiCloseFailed else SpiClosed;
                        LockReleased who]
       ∧ (close_raises f = false → _spi (__exit__ who f b1) = None))
  ∧ (∃ b' s' r, with_acquire who device speed f body b s = Some (b', s', r)
       ∧ _lock b' = None
       ∧ last (trace b') = Some (LockReleased who)
       ∧ (open_raises f = false → speed_raises f = false →
            s' = (body (spidev device) s).1.1 ∧ r = (body (spidev device) s).2))
  ∧ (∀ other b2, _lock b2 = Some other → __enter__ who device speed f b2 = None).
Proof.
  intros Hfree. split; [|split; [|split]].
  - unfold __enter__, lock_acquire. rewrite Hfree.
    destruct (open_raises f); [|destruct (speed_raises f)]; eexists _, _;
      (split; [done|]); cbn; rewrite ?last_snoc; naive_solver.
  - intros b1. unfold __exit__. destruct (close_raises f); cbn;
      rewrite <- ?app_assoc; done.
  - unfold with_acquire, __enter__, lock_acquire. rewrite Hfree.
    destruct (open_raises f); [|destruct (speed_raises f)].
    + eexists _, _, _. split; [done|]. cbn. by rewrite last_snoc.
    + eexists _, _, _. split; [done|]. cbn. by rewrite last_snoc.
    + destruct (body (spidev device) s) as [[s' evs] r].
      eexists _, _, _. split; [done|]. unfold __exit__.
      destruct (close_raises f); cbn; by rewrite last_snoc.
  - intros other b2 Hheld. unfold __enter__, lock_acquire. by rewrite Hheld.
Qed.

(** ** C10: where the workers enqueue *)

Lemma lora_body_events (radio : lora_radio) (spi : SpiDev) (t : worker_thread) :
  Forall (queue_event_of LoRaWorker) (lora_body radio spi t).1.2.
Proof.
  unfold lora_body, put_or_drop.
  repeat case_match; simplify_eq; cbn; repeat constructor.
Qed.

Lemma nrf_drain_events (fifo : list (result bytes)) (t : worker_thread) :
  Forall (queue_event_of nRFWorker) (nrf_drain fifo t).1.2.
Proof.
  revert t. induction fifo as [|[payload|e] fifo IH]; intros t; cbn; [constructor| |constructor].
  destruct (put_or_drop nRFWorker payload t) as [t1 evs] eqn:Hput.
  specialize (IH t1). destruct (nrf_drain fifo t1) as [[t2 evs'] r]. cbn in *.
  apply Forall_app. split; [|done].
  unfold put_or_drop in Hput. destruct (put_nowait _ _); simplify_eq; by repeat constructor.
Qed.

Lemma nrf_body_events (radio : nrf_radio) (spi : SpiDev) (t : worker_thread) :
  Forall (queue_event_of nRFWorker) (nrf_body radio spi t).1.2.
Proof.
  unfold nrf_body. case_match; [constructor | apply nrf_drain_events].
Qed.

(** C10, as the claim has it, fails: the LoRa worker receives a packet
    and puts it on the queue between acquiring and releasing the lock. *)
Lemma lora_enqueues_while_holding_bus :
  ∃ b t,
    lora_wakeup no_spi_fault lora_has_packet free_bus (fresh_worker 100) = Some (b, t)
    ∧ trace b = [LockAcquired LoRaWorker; SpiOpened 0;
                 Enqueued LoRaWorker scenario_packet; SpiClosed;
                 LockReleased LoRaWorker]
    ∧ items (data_queue t) = [scenario_packet]
    ∧ ¬ enqueues_outside_scope (trace b).
Proof.
  eexists _, _. split; [reflexivity|]. split; [reflexivity|]. split; [reflexivity|].
  intros H. cbn in H.
  by apply (H [LockAcquired LoRaWorker; SpiOpened 0] LoRaWorker scenario_packet
              [SpiClosed; LockReleased LoRaWorker]).
Qed.

(** C10 (amended): each radio worker puts a received payload on its
    queue inside the acquisition scope, that is while it holds the bus
    lock; the lock is released after the enqueue, when the scope is
    left, and is free again at the end of every wake-up. *)
Theorem workers_enqueue_inside_scope (f : spi_faults) (lora : lora_radio)
    (nrf : nrf_radio) (b : SPILock) (t : worker_thread) :
  _lock b = None →
  (∃ b' t' evs,
     lora_wakeup f lora b t = Some (b', t')
     ∧ trace b' = trace b ++ evs
     ∧ enqueues_inside_scope evs
     ∧ holder_after evs = None
     ∧ _lock b' = None)
  ∧ (∃ b' t' evs,
       nrf_wakeup f nrf b t = Some (b', t')
       ∧ trace b' = trace b ++ evs
       ∧ enqueues_inside_scope evs
       ∧ holder_after evs = None
       ∧ _lock b' = None).
Proof.
  intros Hfree. split.
  - destruct (with_acquire_scope LoRaWorker 0 8000000 f (lora_body lora) b t Hfree
                (lora_body_events lora)) as (b' & t' & r & evs & Hw & Ht & Hin & Hh & Hl).
    unfold lora_wakeup. rewrite Hw. eexists _, _, evs.
    split; [done|]. split; [done|]. split; [by apply inside_from_spec|done].
  - destruct (with_acquire_scope nRFWorker 1 10000000 f (nrf_body nrf) b t Hfree
                (nrf_body_events nrf)) as (b' & t' & r & evs & Hw & Ht & Hin & Hh & Hl).
    unfold nrf_wakeup. rewrite Hw. eexists _, _, evs.
    split; [done|]. split; [done|]. split; [by apply inside_from_spec|done].
Qed.

Lemma bus_released_on_every_exit_path_witness :
  ∃ b' t' r,
    with_acquire LoRaWorker 0 8000000 no_spi_fault (lora_body lora_has_packet)
      free_bus (fresh_worker 100) = Some (b', t', r)
    ∧ _lock b' = None.
Proof.
  destruct (bus_released_on_every_exit_path LoRaWorker 0 8000000 no_spi_fault
              (lora_body lora_has_packet) free_bus (fresh_worker 100) eq_refl)
    as (_ & _ & (b' & t' & r & H & Hl & _) & _).
  exists b', t', r. split; assumption.
Defined.

Lemma workers_enqueue_inside_scope_witness :
  ∃ b' t' evs,
    nrf_wakeup no_spi_fault nrf_has_two_packets free_bus (fresh_worker 500) = Some (b', t')
    ∧ trace b' = trace free_bus ++ evs
    ∧ enqueues_inside_scope evs.
Proof.
  destruct (workers_enqueue_inside_scope no_spi_fault lora_has_packet
              nrf_has_two_packets free_bus (fresh_worker 500) eq_refl)
    as (_ & b' & t' & evs & H & Ht & Hin & _).
  exists b', t', evs. repeat split; assumption.
Defined.

Example nrf_wakeup_trace :
  trace <$> (fst <$> nrf_wakeup no_spi_fault nrf_has_two_packets free_bus (fresh_worker 500))
  = Some [LockAcquired nRFWorker; SpiOpened 1; Enqueued nRFWorker scout_packet;
          Enqueued nRFWorker scout_packet_2; SpiClosed; LockReleased nRFWorker].
Proof. reflexivity. Qed.

(** ** The loop of the communications thread *)

(** An iteration of [run] that finds the modem ready and no alert waiting
    is the periodic upload alone; one that cannot set the modem up does
    not reach the upload. *)
Lemma run_iteration_idle (json_dumps : list payload_item → string)
    (open_port : option serial) (now now' last : Q) (fault : db_fault)
    (db : database) (self : CommunicationsThread) :
  items (comm_alert_q self) = [] →
  run_iteration json_dumps open_port now now' fault (RunLocals true last) db self
  = match periodic_forwarding json_dumps now now' fault last db self with
    | ((db, self, last), r) => ((db, self, RunLocals true last), r)
    end.
Proof.
  intros Hq. unfold run_iteration, deliver_one_alert, deliver_one_alert_with, get_nowait.
  cbn. by rewrite Hq.
Qed.

Lemma run_iteration_not_ready (json_dumps : list payload_item → string)
    (now now' last : Q) (fault : db_fault) (db : database) (self : CommunicationsThread) :
  sim_manager self = None →
  (run_iteration json_dumps None now now' fault (RunLocals false last) db self).1.1.1 = db.
Proof. intros Hm. unfold run_iteration, setup_sms. cbn. by rewrite Hm. Qed.

(* ================================================================== *)
(** * Part III. Further properties of the sources                      *)
(* ================================================================== *)

(** ** The processor and the store *)

(** What [_process_lora_packet] does to the connection: nothing (the
    packet is discarded, or no call on the connection succeeds), a
    rollback, or the commit of one insert. *)
Lemma process_lora_db_conn (now : string) (fault : db_fault) (packet : bytes)
    (self : processor) :
  let c := db_conn (_process_lora_packet now fault packet self).1 in
  (c = db_conn self ∧ (length packet ≠ 24%nat ∨ fault = ConnectionUnusable))
  ∨ (c = rollback (db_conn self) ∧ length packet = 24%nat ∧ fault ≠ NoFault)
  ∨ (c = connect (insert_fatigue now (le_uint (slice 0 2 packet))
                    (le_uint (slice 3 4 packet)) (le_uint (slice 7 4 packet))
                    (le_uint (slice 11 4 packet)) (working (db_conn self)))
     ∧ length packet = 24%nat ∧ fault = NoFault).
Proof.
  unfold _process_lora_packet.
  destruct (decide (length packet = 24%nat)) as [Hlen|Hlen].
  - rewrite (unpack_lora_24 _ Hlen). destruct fault; cbn [execute try_commit].
    + right; right. unfold _check_alerting_rules.
      match goal with
      | |- context [check_rules_from ?rs ?n ?d ?s] =>
          destruct (check_rules_from_frame rs n d s) as (-> & _)
      end. done.
    + right; left. done.
    + right; left. done.
    + left. cbn. split; [done|by right].
  - rewrite (unpack_lora_other _ Hlen). left. split; [done|by left].
Qed.

Lemma process_nrf_db_conn (now : string) (fault : db_fault) (payload : bytes)
    (self : processor) :
  let c := db_conn (_process_nrf_packet now fault payload self).1 in
  (c = db_conn self ∧ (length payload ≠ 5%nat ∨ fault = ConnectionUnusable))
  ∨ (c = rollback (db_conn self) ∧ length payload = 5%nat ∧ fault ≠ NoFault)
  ∨ (c = connect (insert_environment now (le_uint (slice 0 1 payload))
                    (truediv (to_signed 16 (le_uint (slice 1 2 payload))) 100)
                    (truediv (le_uint (slice 3 2 payload)) 100) (working (db_conn self)))
     ∧ length payload = 5%nat ∧ fault = NoFault).
Proof.
  unfold _process_nrf_packet.
  destruct (Nat.eqb_spec (length payload) 5) as [Hlen|Hlen]; cbn [negb].
  - rewrite (unpack_nrf_5 _ Hlen). destruct fault; cbn [execute try_commit].
    + right; right. done.
    + right; left. done.
    + right; left. done.
    + left. cbn. split; [done|by right].
  - left. split; [done|by left].
Qed.

(** X1: whatever the packet and whatever SQLite call fails, handling a
    primary or a scout packet leaves no transaction open and keeps the
    rows of [fatigue_log] in increasing rowid order below the
    AUTOINCREMENT counter. *)
Theorem processing_keeps_store_invariant (now : string) (fault : db_fault)
    (packet : bytes) (self : processor) :
  idle (db_conn self) → store_ok (committed (db_conn self)) →
  (idle (db_conn (_process_lora_packet now fault packet self).1)
   ∧ store_ok (committed (db_conn (_process_lora_packet now fault packet self).1)))
  ∧ (idle (db_conn (_process_nrf_packet now fault packet self).1)
     ∧ store_ok (committed (db_conn (_process_nrf_packet now fault packet self).1))).
Proof.
  intros Hidle Hok. split.
  - destruct (process_lora_db_conn now fault packet self)
      as [[-> _]|[[-> _]|[-> _]]]; [done|done|].
    split; [done|]. cbn. rewrite Hidle. by apply store_ok_insert_fatigue.
  - destruct (process_nrf_db_conn now fault packet self)
      as [[-> _]|[[-> _]|[-> _]]]; [done|done|].
    split; [done|]. cbn. rewrite Hidle. by apply store_ok_insert_environment.
Qed.

Lemma processing_keeps_store_invariant_witness :
  store_ok (committed (db_conn
    (_process_lora_packet "t0" CommitFails scenario_packet (fresh_processor [])).1))
  ∧ store_ok (committed (db_conn
    (_process_nrf_packet "t0" NoFault scout_packet (fresh_processor [])).1)).
Proof.
  destruct (processing_keeps_store_invariant "t0" CommitFails scenario_packet
              (fresh_processor []) eq_refl store_ok_empty) as [[_ H1] _].
  destruct (processing_keeps_store_invariant "t0" NoFault scout_packet
              (fresh_processor []) eq_refl store_ok_empty) as [_ [_ H2]].
  split; assumption.
Defined.

(** X2: a primary packet never changes or removes a stored row.  Either
    [fatigue_log] is as before, or exactly one row is appended: its rowid
    is the counter plus one, above every rowid in the table, it is not
    yet sent, its node is a 16-bit and its bins are 32-bit unsigned
    values.  [environment_log] is never touched. *)
Theorem lora_packet_appends_at_most_one_fresh_row (now : string) (fault : db_fault)
    (packet : bytes) (self : processor) :
  idle (db_conn self) → store_ok (committed (db_conn self)) →
  let db := committed (db_conn self) in
  let db' := committed (db_conn (_process_lora_packet now fault packet self).1) in
  environment_log db' = environment_log db
  ∧ (fatigue_log db' = fatigue_log db
     ∨ ∃ row,
         fatigue_log db' = fatigue_log db ++ [row]
         ∧ log_id row = fatigue_seq db + 1
         ∧ fatigue_seq db' = log_id row
         ∧ Forall (λ r, log_id r < log_id row) (fatigue_log db)
         ∧ timestamp row = now
         ∧ sent_to_cloud row = 0
         ∧ 0 ≤ node_id row < 2 ^ 16
         ∧ 0 ≤ bin_1_cycles row < 2 ^ 32
         ∧ 0 ≤ bin_2_cycles row < 2 ^ 32
         ∧ 0 ≤ bin_3_cycles row < 2 ^ 32).
Proof.
  intros Hidle [_ Hle] db db'. subst db db'.
  destruct (process_lora_db_conn now fault packet self)
    as [[-> _]|[[-> _]|[-> _]]]; [by split; [|left]..|].
  cbn. rewrite Hidle. split; [done|]. right. eexists. split; [done|]. cbn.
  split; [done|]. split; [done|].
  split; [eapply Forall_impl; [done|]; cbn; intros; lia|].
  split; [done|]. split; [done|].
  pose proof (le_uint_slice_range 0 2 packet).
  pose proof (le_uint_slice_range 3 4 packet).
  pose proof (le_uint_slice_range 7 4 packet).
  pose proof (le_uint_slice_range 11 4 packet).
  change (256 ^ Z.of_nat 2) with (2 ^ 16) in *.
  change (256 ^ Z.of_nat 4) with (2 ^ 32) in *.
  done.
Qed.

Lemma lora_packet_appends_at_most_one_fresh_row_witness :
  environment_log (committed (db_conn
    (_process_lora_packet "t0" NoFault scenario_packet (fresh_processor [])).1)) = [].
Proof.
  destruct (lora_packet_appends_at_most_one_fresh_row "t0" NoFault scenario_packet
              (fresh_processor []) eq_refl store_ok_empty) as [H _].
  exact H.
Defined.

(** X3: handling a scout packet raises in one case only, a 5-byte
    packet on a connection that fails every call: [rollback()] then
    raises inside the handler [except sqlite3.Error], which the sibling
    [except Exception] does not guard.  In every case no alert is put on
    the queue and [fatigue_log] and the queues are left alone; at most
    one row is appended to [environment_log], and only when insert and
    commit succeed: its node is an 8-bit value, its temperature the
    double quotient by [100.0] of a signed 16-bit and its humidity that
    of an unsigned 16-bit reading. *)
Theorem scout_packet_effects (now : string) (fault : db_fault)
    (payload : bytes) (self : processor) :
  idle (db_conn self) →
  let self' := (_process_nrf_packet now fault payload self).1 in
  let db := committed (db_conn self) in
  let db' := committed (db_conn self') in
  (length payload = 5%nat ∧ fault = ConnectionUnusable →
     (_process_nrf_packet now fault payload self).2 = Raise SqliteError
     ∧ db_conn self' = db_conn self)
  ∧ (length payload ≠ 5%nat ∨ fault ≠ ConnectionUnusable →
       (_process_nrf_packet now fault payload self).2 = Ok tt)
  ∧ alert_q self' = alert_q self
  ∧ high_prio_q self' = high_prio_q self ∧ low_prio_q self' = low_prio_q self
  ∧ fatigue_log db' = fatigue_log db ∧ fatigue_seq db' = fatigue_seq db
  ∧ (environment_log db' = environment_log db
     ∨ ∃ node t h,
         environment_log db'
         = environment_log db
           ++ [EnvironmentRow (environment_seq db + 1) now node
                 (PrimFloat.div (float_of_int t) 100) (PrimFloat.div (float_of_int h) 100)]
         ∧ 0 ≤ node < 2 ^ 8 ∧ - 2 ^ 15 ≤ t < 2 ^ 15 ∧ 0 ≤ h < 2 ^ 16
         ∧ length payload = 5%nat ∧ fault = NoFault).
Proof.
  intros Hidle self' db db'. subst self' db db'.
  split.
  { intros [Hlen ->]. unfold _process_nrf_packet. rewrite Hlen. cbn [Nat.eqb negb].
    by rewrite (unpack_nrf_5 _ Hlen). }
  split.
  { intros Hcase. unfold _process_nrf_packet.
    destruct (Nat.eqb_spec (length payload) 5) as [Hlen|Hlen]; cbn [negb]; [|done].
    rewrite (unpack_nrf_5 _ Hlen). destruct Hcase as [?|Hf]; [done|].
    destruct fault; done. }
  destruct (process_nrf_frame now fault payload self) as (Hh & Hl & _ & Ha).
  split; [done|]. split; [done|]. split; [done|].
  destruct (process_nrf_db_conn now fault payload self)
    as [[-> _]|[[-> _]|[-> [Hlen Hf]]]]; [by repeat split; try left..|].
  cbn. rewrite Hidle. split; [done|]. split; [done|]. right.
  eexists _, _, _. split; [done|].
  pose proof (le_uint_slice_range 0 1 payload).
  pose proof (le_uint_slice_range 1 2 payload) as H2.
  pose proof (le_uint_slice_range 3 2 payload).
  change (256 ^ Z.of_nat 1) with (2 ^ 8) in *.
  change (256 ^ Z.of_nat 2) with 65536 in *.
  apply to_signed_16_range in H2.
  change (2 ^ 15) with 32768. change (2 ^ 16) with 65536.
  repeat split; try done; lia.
Qed.

Lemma scout_packet_effects_witness :
  (_process_nrf_packet "t0" ConnectionUnusable scout_packet_2
     (fresh_processor [Rule 43 "temperature" 0 "cold"])).2 = Raise SqliteError
  ∧ alert_q (_process_nrf_packet "t0" ConnectionUnusable scout_packet_2
               (fresh_processor [Rule 43 "temperature" 0 "cold"])).1
    = Queue [] 50.
Proof.
  destruct (scout_packet_effects "t0" ConnectionUnusable scout_packet_2
              (fresh_processor [Rule 43 "temperature" 0 "cold"]) eq_refl)
    as (Hr & _ & H & _).
  destruct Hr as [Hr _]; [done|]. split; [exact Hr | exact H].
Defined.

(** ** Alerts on a full queue, and rules that raise *)

Lemma check_rules_from_full (rs : list rule) (node : Z) (data : gmap string Z)
    (self : processor) :
  q_full (alert_q self) = true →
  alert_q (check_rules_from rs node data self).1 = alert_q self
  ∧ (Forall renders rs →
     (check_rules_from rs node data self).2 = Ok tt
     ∧ log (check_rules_from rs node data self).1
       = log self ++ replicate (length (omap (alert_for node data) rs))
                       (Log ERROR "Alert queue is full. Cannot send new alert.")).
Proof.
  revert self. induction rs as [|r rs IH]; intros self Hfull.
  { cbn. by rewrite app_nil_r. }
  cbn [check_rules_from omap list_omap]. unfold alert_for at 1 2 3.
  destruct (Z.eqb_spec (rule_node_id r) node) as [Heq|Hne];
    [rewrite decide_True by done | rewrite decide_False by done].
  2:{ destruct (IH self Hfull) as [Ha Hl]. split; [done|].
      intros [_ Hren]%Forall_cons. by apply Hl. }
  destruct (data !! field_to_monitor r) as [value|].
  2:{ destruct (IH self Hfull) as [Ha Hl]. split; [done|].
      intros [_ Hren]%Forall_cons. by apply Hl. }
  destruct (Z.ltb_spec (threshold r) value) as [Hlt|Hge];
    [rewrite decide_True by done | rewrite decide_False by lia].
  2:{ destruct (IH self Hfull) as [Ha Hl]. split; [done|].
      intros [_ Hren]%Forall_cons. by apply Hl. }
  destruct (py_format _ _) as [alert_msg|e] eqn:Hf.
  - unfold put_nowait. rewrite Hfull.
    destruct (IH (logging ERROR "Alert queue is full. Cannot send new alert." self) Hfull)
      as [Ha Hl].
    split; [done|]. intros [_ Hren]%Forall_cons.
    destruct (Hl Hren) as [-> ->]. split; [done|]. cbn. by rewrite <- app_assoc.
  - split; [done|]. intros [Hr _]%Forall_cons. specialize (Hr node value).
    rewrite Hf in Hr. discriminate.
Qed.

(** X4: when the alert queue is full, evaluating the rules leaves the
    queue as it is; every template rendering, the evaluation goes through
    all rules and logs one error for each alert it had to drop. *)
Theorem full_alert_queue_drops_alerts (node : Z) (data : gmap string Z)
    (self : processor) :
  q_full (alert_q self) = true →
  alert_q (_check_alerting_rules node data self).1 = alert_q self
  ∧ (Forall renders (rules self) →
     (_check_alerting_rules node data self).2 = Ok tt
     ∧ log (_check_alerting_rules node data self).1
       = log self ++ replicate (length (omap (alert_for node data) (rules self)))
                       (Log ERROR "Alert queue is full. Cannot send new alert.")).
Proof. intros Hfull. by apply check_rules_from_full. Qed.

Lemma full_alert_queue_drops_alerts_witness :
  alert_q (_check_alerting_rules 1 (fatigue_data 5 10 20)
             (Processor (Queue [] 100) (Queue [] 500) (Queue ["a"; "b"] 2)
                        [Rule 1 "bin_3_cycles" 15 "N{node}"] (connect empty_db) [])).1
  = Queue ["a"; "b"] 2.
Proof.
  destruct (full_alert_queue_drops_alerts 1 (fatigue_data 5 10 20)
              (Processor (Queue [] 100) (Queue [] 500) (Queue ["a"; "b"] 2)
                         [Rule 1 "bin_3_cycles" 15 "N{node}"] (connect empty_db) [])
              eq_refl) as [H _].
  exact H.
Defined.

Lemma process_lora_raises (now : string) (fault : db_fault) (packet : bytes)
    (self : processor) (e : exn) :
  (_process_lora_packet now fault packet self).2 = Raise e →
  length packet = 24%nat
  ∧ (fault = NoFault ∨ fault = ConnectionUnusable ∧ e = SqliteError).
Proof.
  unfold _process_lora_packet.
  destruct (decide (length packet = 24%nat)) as [Hlen|Hlen].
  - rewrite (unpack_lora_24 _ Hlen).
    destruct fault; cbn [execute try_commit]; try done.
    + intros _. split; [done|by left].
    + cbn. intros [= <-]. split; [done|by right].
  - by rewrite (unpack_lora_other _ Hlen).
Qed.

(** X5: an exception leaves [_process_lora_packet] in two ways only.
    From [rollback()], called in the handler of a database error on a
    connection that fails every call: nothing has been written, the
    connection and the alert queue are as before.  Or from the rule
    evaluation (a template that does not render), after the fatigue row
    of the packet has been committed: the row stays in the store.  In
    both cases the packet was a 24-byte one, the loop of [run] logs the
    error, and the thread goes on with the rest of the high-priority
    queue. *)
Theorem exception_leaves_from_rollback_or_rules (now : string) (fault : db_fault)
    (packet : bytes) (rest : list bytes) (t : thread) (e : exn) :
  idle (db_conn (self t)) →
  pos t = InHighLoop →
  items (high_prio_q (self t)) = packet :: rest →
  (_process_lora_packet now fault packet
     (set_high_prio_q (Queue rest (maxsize (high_prio_q (self t)))) (self t))).2
  = Raise e →
  let t' := tick now fault t in
  length packet = 24%nat
  ∧ (fault = ConnectionUnusable ∧ e = SqliteError
     ∧ db_conn (self t') = db_conn (self t)
     ∧ alert_q (self t') = alert_q (self t)
     ∨ fault = NoFault
       ∧ fatigue_log (committed (db_conn (self t')))
         = fatigue_log (committed (db_conn (self t))) ++
             [FatigueRow (fatigue_seq (committed (db_conn (self t))) + 1) now
                (le_uint (slice 0 2 packet)) (le_uint (slice 3 4 packet))
                (le_uint (slice 7 4 packet)) (le_uint (slice 11 4 packet)) 0])
  ∧ pos t' = InHighLoop
  ∧ items (high_prio_q (self t')) = rest
  ∧ last (log (self t'))
    = Some (Log ERROR "An error occurred in the data processing loop").
Proof.
  intros Hidle Hpos Hq Hraise t'. subst t'.
  destruct (process_lora_raises _ _ _ _ _ Hraise) as [Hlen Hcase].
  split; [done|].
  destruct Hcase as [->|[-> ->]].
  - pose proof (process_lora_db_conn now NoFault packet
                  (set_high_prio_q (Queue rest (maxsize (high_prio_q (self t)))) (self t)))
      as [[_ [?|?]]|[[_ [_ ?]]|[Hc _]]]; [done..|].
    pose proof (process_lora_frame now NoFault packet
                  (set_high_prio_q (Queue rest (maxsize (high_prio_q (self t)))) (self t)))
      as (Hh & _).
    unfold tick, q_empty, get_nowait. rewrite Hpos, Hq.
    destruct (_process_lora_packet _ _ _ _) as [s r]. cbn in Hraise, Hc, Hh. subst r.
    cbn. rewrite Hc, Hh, last_snoc. cbn. rewrite Hidle. split; [by right|done].
  - rewrite (tick_db_error now ConnectionUnusable packet rest t) by done.
    cbn. rewrite last_snoc. split; [by left|done].
Qed.

Lemma exception_leaves_from_rollback_or_rules_witness :
  let t := Thread (Processor (Queue [scenario_packet] 100) (Queue [] 500) (Queue [] 50)
                     [Rule 1 "bin_3_cycles" 15 "{oops}"] (connect empty_db) [])
                  InHighLoop false [] in
  pos (tick "t0" NoFault t) = InHighLoop
  ∧ last (log (self (tick "t0" NoFault t)))
    = Some (Log ERROR "An error occurred in the data processing loop").
Proof.
  intros t.
  destruct (exception_leaves_from_rollback_or_rules "t0" NoFault scenario_packet [] t KeyError)
    as (_ & _ & Hp & _ & Hl); [done..|].
  split; [exact Hp | exact Hl].
Defined.

(** The two ways at work: the template that does not render raises after
    the commit, the unusable connection before anything is written. *)
Example exception_after_commit_and_before :
  let t := Thread (Processor (Queue [scenario_packet] 100) (Queue [] 500) (Queue [] 50)
                     [Rule 1 "bin_3_cycles" 15 "{oops}"] (connect empty_db) [])
                  InHighLoop false [] in
  fatigue_log (committed (db_conn (self (tick "t0" NoFault t))))
  = [FatigueRow 1 "t0" 1 5 10 20 0]
  ∧ fatigue_log (committed (db_conn (self (tick "t0" ConnectionUnusable t)))) = [].
Proof. vm_compute. done. Qed.

(** ** The loop and its queues *)

Lemma tick_keeps_packets (now : string) (fault : db_fault) (t : thread) :
  (snd <$> history (tick now fault t)) ++ items (high_prio_q (self (tick now fault t)))
    ++ items (low_prio_q (self (tick now fault t)))
  ≡ₚ (snd <$> history t) ++ items (high_prio_q (self t)) ++ items (low_prio_q (self t))
  ∧ history t `prefix_of` history (tick now fault t).
Proof.
  unfold tick, q_empty, get_nowait. destruct (pos t).
  - destruct (items (high_prio_q (self t))) as [|p rest] eqn:Hq.
    { cbn. rewrite Hq. done. }
    pose proof (process_lora_frame now fault p
                  (set_high_prio_q (Queue rest (maxsize (high_prio_q (self t)))) (self t)))
      as (Hh & Hl & _).
    destruct (_process_lora_packet _ _ _ _) as [s [[]|e]]; cbn in *;
      rewrite Hh, Hl, fmap_app, <- app_assoc; (split; [done|by apply prefix_app_r]).
  - destruct (items (low_prio_q (self t))) as [|p rest] eqn:Hq.
    { cbn. rewrite Hq. done. }
    pose proof (process_nrf_frame now fault p
                  (set_low_prio_q (Queue rest (maxsize (low_prio_q (self t)))) (self t)))
      as (Hh & Hl & _).
    destruct (_process_nrf_packet _ _ _ _) as [s [[]|e]]; cbn in *;
      rewrite Hh, Hl, fmap_app, <- app_assoc; cbn;
      (split; [|by apply prefix_app_r]);
      apply Permutation_app_head; by rewrite Permutation_middle.
Qed.

(** X6: the loop of [run] neither loses nor duplicates a packet: over any
    number of steps with no arrival in between, the packets taken so far
    together with those still waiting on the two queues are the same
    collection, and the record of packets taken only grows. *)
Theorem ticks_lose_no_packet (ticks : list (string * db_fault)) (t : thread) :
  let t' := run ((λ nf, Tick nf.1 nf.2) <$> ticks) t in
  (snd <$> history t') ++ items (high_prio_q (self t')) ++ items (low_prio_q (self t'))
  ≡ₚ (snd <$> history t) ++ items (high_prio_q (self t)) ++ items (low_prio_q (self t))
  ∧ history t `prefix_of` history t'.
Proof.
  revert t. induction ticks as [|[now fault] ticks IH]; intros t; [done|].
  cbn. destruct (IH (tick now fault t)) as [Hp Hh].
  destruct (tick_keeps_packets now fault t) as [Hp' Hh'].
  split; [by etrans | by etrans].
Qed.

Lemma high_drained_first_witness :
  let t := Thread (Processor (Queue [scenario_packet; packet_20] 100)
                     (Queue [scout_packet] 500) (Queue [] 50) [] (connect empty_db) [])
                  InHighLoop false [] in
  history (run [Tick "t1" NoFault; Tick "t2" ExecuteFails] t)
  = [(High, scenario_packet); (High, packet_20)].
Proof.
  intros t.
  destruct (high_drained_first [("t1", NoFault); ("t2", ExecuteFails)] t eq_refl eq_refl)
    as (_ & _ & _ & H).
  exact H.
Defined.

(** ** The modem dialogue *)

Lemma send_at_command_out (command expected : string) (m : SIM800LManager) :
  has_port m →
  has_port (send_at_command command expected m).2
  ∧ out (send_at_command command expected m).2 = out m ++ [command +:+ CRLF].
Proof.
  intros [port Hp]. unfold send_at_command, out, has_port. rewrite Hp.
  destruct (read_until _ _ _) as [r rest]. cbn. eauto.
Qed.

Lemma send_at_command_success (command expected : string) (m : SIM800LManager) :
  (send_at_command command expected m).1.1 = true → has_port m.
Proof.
  unfold send_at_command, has_port. destruct (ser m); [eauto|done].
Qed.

Lemma ser_write_out (data : string) (m : SIM800LManager) :
  has_port m →
  ∃ m', ser_write data m = Ok m' ∧ has_port m' ∧ out m' = out m ++ [data].
Proof.
  intros [port Hp]. unfold ser_write, out, has_port. rewrite Hp. cbn. eauto.
Qed.

(** One more command of a dialogue whose output so far extends [base]. *)
Ltac next_command base :=
  match goal with
  | Hp : has_port ?m, Hpre : base `prefix_of` out ?m
    |- context [send_at_command ?c ?e ?m] =>
      let Hp' := fresh "Hp" in
      let Ho := fresh "Ho" in
      let Hpre' := fresh "Hpre" in
      destruct (send_at_command_out c e m Hp) as [Hp' Ho];
      assert (Hpre' : base `prefix_of` out (send_at_command c e m).2)
        by (rewrite Ho; by apply prefix_app_r);
      clear Hp Hpre Ho;
      destruct (send_at_command c e m) as [[? ?] ?]; cbn [fst snd] in Hp', Hpre'
  end.

Ltac next_write base :=
  match goal with
  | Hp : has_port ?m, Hpre : base `prefix_of` out ?m
    |- context [ser_write ?d ?m] =>
      let m' := fresh "m" in
      let Hp' := fresh "Hp" in
      let Ho := fresh "Ho" in
      let Hpre' := fresh "Hpre" in
      destruct (ser_write_out d m Hp) as (m' & -> & Hp' & Ho);
      assert (Hpre' : base `prefix_of` out m')
        by (rewrite Ho; by apply prefix_app_r);
      clear Hp Hpre Ho
  end.

Lemma http_post_dialogue_out (payload : string) (base : list string)
    (m : SIM800LManager) :
  has_port m → base `prefix_of` out m →
  has_port (http_post_dialogue payload m).2
  ∧ base `prefix_of` out (http_post_dialogue payload m).2
  ∧ ∃ b, (http_post_dialogue payload m).1 = Ok b.
Proof.
  intros Hp Hpre. unfold http_post_dialogue.
  next_command base.
  destruct (str_in "+CREG: 0,1" _).
  - cbn [negb]. do 7 next_command base.
    next_write base. next_command base.
    destruct (negb _); [eauto|]. next_command base.
    destruct (_ && _); eauto.
  - next_command base. destruct (str_in "+CREG: 0,5" _); cbn [negb]; [|eauto].
    do 7 next_command base.
    next_write base. next_command base.
    destruct (negb _); [eauto|]. next_command base.
    destruct (_ && _); eauto.
Qed.

(** X7: on a modem whose serial port is open, [_http_post_payload] never
    raises, and whatever the outcome of the dialogue the last two
    commands it writes are [AT+HTTPTERM] and [AT+SAPBR=0,1]: the HTTP
    service and the bearer are always closed. *)
Theorem http_session_always_torn_down (payload : string) (m : SIM800LManager) :
  has_port m →
  ∃ b m' mid,
    _http_post_payload payload (Some m) = (Ok b, Some m')
    ∧ has_port m'
    ∧ out m' = out m ++ mid ++ ["AT+HTTPTERM" +:+ CRLF; "AT+SAPBR=0,1" +:+ CRLF].
Proof.
  intros Hp. unfold _http_post_payload.
  destruct (http_post_dialogue_out payload (out m) m Hp) as (Hp1 & [mid Hmid] & b & Hb);
    [done|].
  destruct (http_post_dialogue payload m) as [r m1]. cbn in *. subst r.
  unfold http_cleanup.
  destruct (send_at_command_out "AT+HTTPTERM" "OK" m1 Hp1) as [Hp2 Ho2].
  destruct (send_at_command "AT+HTTPTERM" "OK" m1) as [[? ?] m2]. cbn in *.
  destruct (send_at_command_out "AT+SAPBR=0,1" "OK" m2 Hp2) as [Hp3 Ho3].
  destruct (send_at_command "AT+SAPBR=0,1" "OK" m2) as [[? ?] m3]. cbn in *.
  exists b, m3, mid. split; [done|]. split; [done|].
  rewrite Ho3, Ho2, Hmid. by rewrite <- !app_assoc.
Qed.

Lemma http_session_always_torn_down_witness :
  ∃ b m' mid,
    _http_post_payload "[]" (sim_manager (comm_with_modem "+HTTPACTION: 1,500,0"))
    = (Ok b, Some m')
    ∧ out m' = mid ++ ["AT+HTTPTERM" +:+ CRLF; "AT+SAPBR=0,1" +:+ CRLF].
Proof.
  destruct (http_session_always_torn_down "[]"
              (Manager (Some (Serial (modem_script "+HTTPACTION: 1,500,0") []))))
    as (b & m' & mid & H & _ & Ho).
  - by eexists.
  - exists b, m', mid. split; [exact H | exact Ho].
Defined.

(** ** The upload and the sent flags *)

Lemma rowid_unique (l : list fatigue_row) (a b : fatigue_row) :
  StronglySorted rowid_lt l → a ∈ l → b ∈ l → log_id a = log_id b → a = b.
Proof.
  induction 1 as [|x l Hs IH Hall]; [by intros ?%elem_of_nil|].
  rewrite Forall_forall in Hall. unfold rowid_lt in Hall.
  intros [->|Ha]%elem_of_cons [->|Hb]%elem_of_cons Hid; [done| | |by apply IH].
  - specialize (Hall _ Hb). lia.
  - specialize (Hall _ Ha). lia.
Qed.

Lemma select_unsent_elem (db : database) (r : fatigue_row) :
  r ∈ select_unsent db → r ∈ fatigue_log db ∧ sent_to_cloud r = 0.
Proof.
  unfold select_unsent. intros (i & Hi & _)%elem_of_take.
  apply list_elem_of_lookup_2 in Hi. apply list_elem_of_filter in Hi. tauto.
Qed.

(** X8: an upload never adds, removes or reorders rows and never touches
    [environment_log] or the rowid counter.  A row either stays as it is
    or, being an unsent row of the batch, has its [sent_to_cloud] set
    from 0 to 1 with every other column kept: a flag is never cleared. *)
Theorem upload_only_sets_sent_flags (json_dumps : list payload_item → string)
    (fault : db_fault) (db : database) (self : CommunicationsThread) :
  store_ok db →
  let db' := (forward_data_to_cloud json_dumps fault db self).1.1 in
  length (fatigue_log db') = length (fatigue_log db)
  ∧ environment_log db' = environment_log db
  ∧ fatigue_seq db' = fatigue_seq db
  ∧ ∀ i r, fatigue_log db !! i = Some r →
      fatigue_log db' !! i = Some r
      ∨ (sent_to_cloud r = 0 ∧ r ∈ select_unsent db
         ∧ fatigue_log db' !! i
           = Some (FatigueRow (log_id r) (timestamp r) (node_id r) (bin_1_cycles r)
                              (bin_2_cycles r) (bin_3_cycles r) 1)).
Proof.
  intros [Hs _] db'. subst db'.
  destruct (forward_updates_only_after_true json_dumps fault db self)
    as [->|(_ & _ & ->)]; [by repeat split; auto|].
  split; [cbn; by rewrite length_fmap|]. split; [done|]. split; [done|].
  intros i r Hi. rewrite mark_sent_lookup, Hi. cbn.
  case_bool_decide as Hin; [right|by left].
  apply list_elem_of_fmap in Hin as (b & Hid & Hb).
  destruct (select_unsent_elem _ _ Hb) as [Hb' Hb0].
  assert (r = b) as ->
    by (eapply rowid_unique; [done|by eapply list_elem_of_lookup_2|done|done]).
  done.
Qed.

Lemma upload_only_sets_sent_flags_witness :
  length (fatigue_log (forward_data_to_cloud (λ _, "[]") NoFault db_three_unsent
                         (comm_with_modem "+HTTPACTION: 1,200,0")).1.1) = 3%nat.
Proof.
  assert (Hok : store_ok db_three_unsent).
  { split; repeat constructor; unfold rowid_lt; cbn; lia. }
  destruct (upload_only_sets_sent_flags (λ _, "[]") NoFault db_three_unsent
              (comm_with_modem "+HTTPACTION: 1,200,0") Hok) as [H _].
  exact H.
Defined.

(** X9: when an upload has changed the store, no row of its batch is
    selected by the next upload: what the next upload selects are rows
    that were unsent before and were not in the batch. *)
Theorem uploaded_rows_not_selected_again (json_dumps : list payload_item → string)
    (fault : db_fault) (db : database) (self : CommunicationsThread) :
  let db' := (forward_data_to_cloud json_dumps fault db self).1.1 in
  db' ≠ db →
  ∀ r, r ∈ select_unsent db' →
    (log_id r ∉ (log_id <$> select_unsent db))
    ∧ r ∈ fatigue_log db ∧ sent_to_cloud r = 0.
Proof.
  intros db' Hne r Hr. subst db'.
  destruct (forward_updates_only_after_true json_dumps fault db self)
    as [?|(_ & _ & Hdb)]; [done|].
  rewrite Hdb in Hr. apply select_unsent_elem in Hr as [Hr H0].
  cbn in Hr. apply list_elem_of_fmap in Hr as (r0 & -> & Hr0).
  case_bool_decide; [done|]. done.
Qed.

Lemma uploaded_rows_not_selected_again_witness :
  51 ∉ (log_id <$> select_unsent db_51_unsent).
Proof.
  assert (Hne : (forward_data_to_cloud (λ _, "[]") NoFault db_51_unsent
                   (comm_with_modem "+HTTPACTION: 1,200,0")).1.1 ≠ db_51_unsent)
    by (vm_compute; discriminate).
  assert (Hin : FatigueRow 51 "2025-09-01T10:00:00" 1 0 0 0 0
                ∈ select_unsent (forward_data_to_cloud (λ _, "[]") NoFault db_51_unsent
                                   (comm_with_modem "+HTTPACTION: 1,200,0")).1.1).
  { apply (list_elem_of_lookup_2 _ 0%nat). vm_compute. reflexivity. }
  destruct (uploaded_rows_not_selected_again (λ _, "[]") NoFault db_51_unsent
              (comm_with_modem "+HTTPACTION: 1,200,0") Hne _ Hin) as [H _].
  exact H.
Defined.

(** ** Alerts and the loop of the communications thread *)

Lemma send_sms_keeps_queue (number message : string) (self : CommunicationsThread) :
  comm_alert_q (send_sms number message self).2 = comm_alert_q self.
Proof. unfold send_sms. repeat case_match; done. Qed.

(** X10: what the loop of [run] does with an alert it has taken off the
    queue depends on [send_sms] alone, whatever that call does to the
    modem.  When it returns [True] the alert is gone; when it returns
    [False] the alert is put back at the end of the queue, a warning is
    logged and the modem is marked not ready; when it raises (a serial
    write or read that fails), the handler [except Exception] logs the
    error and marks the modem not ready, and the alert is not put back:
    it is lost.  The other alerts and the capacity of the queue are
    unchanged, and with no alert waiting nothing changes. *)
Theorem unsent_alert_is_requeued
    (send : string → string → CommunicationsThread → result bool * CommunicationsThread)
    (self : CommunicationsThread) :
  (∀ number message s, comm_alert_q (send number message s).2 = comm_alert_q s) →
  (items (comm_alert_q self) = [] → deliver_one_alert_with send self = (true, self))
  ∧ ∀ alert rest, items (comm_alert_q self) = alert :: rest →
      let out := deliver_one_alert_with send self in
      let sent := send ALERT_RECIPIENT_NUMBER alert
                    (set_comm_alert_q (Queue rest (maxsize (comm_alert_q self))) self) in
      maxsize (comm_alert_q out.2) = maxsize (comm_alert_q self)
      ∧ sim_manager out.2 = sim_manager sent.2
      ∧ match sent.1 with
        | Ok true =>
            out.1 = true ∧ items (comm_alert_q out.2) = rest
            ∧ comm_log out.2 = comm_log sent.2
        | Ok false =>
            out.1 = false ∧ items (comm_alert_q out.2) = rest ++ [alert]
            ∧ comm_log out.2
              = comm_log sent.2 ++ [Log WARNING "SMS failed. Re-queuing alert."]
        | Raise _ =>
            out.1 = false ∧ items (comm_alert_q out.2) = rest
            ∧ comm_log out.2
              = comm_log sent.2 ++ [Log ERROR "Error in communications loop"]
        end.
Proof.
  intros Hkeep. split.
  { intros Hq. unfold deliver_one_alert_with, get_nowait. by rewrite Hq. }
  intros alert rest Hq out sent. subst out.
  unfold deliver_one_alert_with, get_nowait. rewrite Hq. fold sent.
  pose proof (Hkeep ALERT_RECIPIENT_NUMBER alert
                (set_comm_alert_q (Queue rest (maxsize (comm_alert_q self))) self)) as Hs.
  fold sent in Hs. cbn in Hs.
  destruct sent as [[[]|e] s']; cbn in *; rewrite Hs; done.
Qed.

Lemma unsent_alert_is_requeued_witness :
  let self := Communications None (Queue ["first"; "second"] 50) [] in
  deliver_one_alert_with (λ _ _ s, (Raise OSError, s)) self
  = (false, Communications None (Queue ["second"] 50)
              [Log ERROR "Error in communications loop"]).
Proof.
  intros self.
  destruct (unsent_alert_is_requeued (λ _ _ s, (Raise OSError, s)) self) as [_ H];
    [done|].
  destruct (H "first" ["second"] eq_refl) as (Hm & Hs & Hf & Hq & Hl).
  reflexivity.
Defined.

(** With the modem of the model: no port, so [send_sms] returns [False]
    and the alert goes to the end of the queue. *)
Example alert_requeued_without_port :
  deliver_one_alert (Communications (Some (Manager None)) (Queue ["first"; "second"] 50) [])
  = (false, Communications (Some (Manager None)) (Queue ["second"; "first"] 50)
              [Log WARNING "SMS failed. Re-queuing alert."]).
Proof. reflexivity. Qed.

(** X11: an iteration of [run] that does not get the modem ready for SMS
    ends there: the upload is not attempted, however long ago the last
    one was; the store and [last_cloud_upload_time] are unchanged and no
    alert is taken off the queue. *)
Theorem no_upload_while_modem_not_ready (json_dumps : list payload_item → string)
    (open_port : option serial) (now now' last : Q) (fault : db_fault)
    (db : database) (self : CommunicationsThread) :
  (setup_sms open_port self).1 = false →
  let out := run_iteration json_dumps open_port now now' fault
               (RunLocals false last) db self in
  out.2 = Ok tt
  ∧ out.1.1.1 = db
  ∧ out.1.2 = RunLocals false last
  ∧ comm_alert_q out.1.1.2 = comm_alert_q self.
Proof.
  intros Hsetup out. subst out. unfold run_iteration. cbn [is_sms_ready].
  assert (Hq : comm_alert_q (setup_sms open_port self).2 = comm_alert_q self).
  { unfold setup_sms. repeat case_match; done. }
  destruct (setup_sms open_port self) as [ready self']. cbn in *. subst ready.
  done.
Qed.

Lemma no_upload_while_modem_not_ready_witness :
  (run_iteration (λ _, "[]") None 1000 1001 NoFault (RunLocals false 0)
     db_three_unsent (Communications None (Queue ["N1 val20 thr15"] 50) [])).1.1.1
  = db_three_unsent.
Proof.
  destruct (no_upload_while_modem_not_ready (λ _, "[]") None 1000 1001 0 NoFault
              db_three_unsent (Communications None (Queue ["N1 val20 thr15"] 50) [])
              eq_refl) as (_ & H & _).
  exact H.
Defined.

(** ** More on the archiver *)

Lemma archive_store_cases (env : archive_env) (w : archive_world) :
  (store (archive_and_purge env w).1 = store w
   ∧ PurgeCommitted ∉ (archive_and_purge env w).2)
  ∨ (store (archive_and_purge env w).1 = purge (cutoff_date env) (store w)
     ∧ PurgeCommitted ∈ (archive_and_purge env w).2).
Proof.
  unfold archive_and_purge. cbn [connect working].
  repeat case_match; simplify_eq; cbn; try (left; split; [done|set_solver]);
    try (right; split; [done|set_solver]).
  all: match goal with
       | H : execute ?f _ _ = _ |- _ => destruct f; simplify_eq
       end.
  all: cbn in *; simplify_eq; right; split; [done|set_solver].
Qed.

Lemma no_old_rows_after_purge (cutoff : string) (db : database) :
  filter (older_than cutoff) (fatigue_log (purge cutoff db)) = [].
Proof.
  apply elem_of_nil_inv. intros r [Hold Hr]%list_elem_of_filter.
  cbn in Hr. by apply list_elem_of_filter in Hr as [Hn _].
Qed.

Lemma archive_nothing_old (env : archive_env) (w : archive_world) :
  filter (older_than (cutoff_date env)) (fatigue_log (store w)) = [] →
  (archive_and_purge env w).2 = []
  ∧ store (archive_and_purge env w).1 = store w
  ∧ archive_dir (archive_and_purge env w).1 = archive_dir w.
Proof.
  intros Hnone. unfold archive_and_purge. cbn [connect working]. rewrite Hnone.
  repeat case_match; done.
Qed.

(** X12: after a run that has committed its purge, a second run with the
    same cutoff finds no row to archive: it writes no file and deletes
    nothing, whatever else its environment is like. *)
Theorem second_archive_run_finds_nothing (env env' : archive_env) (w : archive_world) :
  PurgeCommitted ∈ (archive_and_purge env w).2 →
  cutoff_date env' = cutoff_date env →
  let w1 := (archive_and_purge env w).1 in
  (archive_and_purge env' w1).2 = []
  ∧ store (archive_and_purge env' w1).1 = store w1
  ∧ archive_dir (archive_and_purge env' w1).1 = archive_dir w1.
Proof.
  intros Hp Hc w1. subst w1.
  destruct (archive_store_cases env w) as [[_ ?]|[Hs _]]; [done|].
  apply archive_nothing_old. by rewrite Hs, Hc, no_old_rows_after_purge.
Qed.

Lemma second_archive_run_finds_nothing_witness :
  (archive_and_purge env_archive_ok
     (archive_and_purge env_archive_ok (ArchiveWorld db_old_and_recent [] [])).1).2 = [].
Proof.
  destruct (second_archive_run_finds_nothing env_archive_ok env_archive_ok
              (ArchiveWorld db_old_and_recent [] [])) as [H _].
  - vm_compute. set_solver.
  - reflexivity.
  - exact H.
Defined.

Lemma store_ok_purge (cutoff : string) (db : database) :
  store_ok db → store_ok (purge cutoff db).
Proof.
  intros [Hs Hle]. split; cbn; [by apply sorted_filter|].
  rewrite Forall_forall in *. intros r [_ Hr]%list_elem_of_filter. auto.
Qed.

(** X13: a run of the archiver keeps the rowid order of [fatigue_log],
    leaves the AUTOINCREMENT counter and [environment_log] alone, and only
    removes rows; so the rowid given to the next inserted row is above
    the rowid of every row the table held before the run, purged rows
    included: a rowid is not used twice. *)
Theorem purged_rowids_not_reused (env : archive_env) (w : archive_world)
    (now : string) (node b1 b2 b3 : Z) :
  store_ok (store w) →
  let db' := store (archive_and_purge env w).1 in
  store_ok db'
  ∧ fatigue_seq db' = fatigue_seq (store w)
  ∧ environment_log db' = environment_log (store w)
  ∧ (∀ r, r ∈ fatigue_log db' → r ∈ fatigue_log (store w))
  ∧ ∀ r, r ∈ fatigue_log (store w) →
      log_id r < fatigue_seq (insert_fatigue now node b1 b2 b3 db').
Proof.
  intros Hok db'. subst db'.
  assert (Hnew : ∀ r, r ∈ fatigue_log (store w) → log_id r < fatigue_seq (store w) + 1).
  { destruct Hok as [_ Hle]. rewrite Forall_forall in Hle.
    intros r Hr. specialize (Hle _ Hr). lia. }
  destruct (archive_store_cases env w) as [[-> _]|[-> _]].
  - split; [done|]. split; [done|]. split; [done|]. split; [done|]. exact Hnew.
  - split; [by apply store_ok_purge|]. split; [done|]. split; [done|].
    split; [|exact Hnew].
    intros r Hr. cbn in Hr. by apply list_elem_of_filter in Hr as [_ ?].
Qed.

Lemma purged_rowids_not_reused_witness :
  fatigue_log (insert_fatigue "2025-09-03T09:00:00" 1 1 2 3
                 (store (archive_and_purge env_archive_ok
                           (ArchiveWorld db_old_and_recent [] [])).1))
  = [FatigueRow 2 "2025-05-26T08:00:00.250000" 1 6 10 20 0;
     FatigueRow 3 "2025-09-03T09:00:00" 1 1 2 3 0].
Proof.
  assert (Hok : store_ok db_old_and_recent).
  { split; repeat constructor; unfold rowid_lt; cbn; lia. }
  destruct (purged_rowids_not_reused env_archive_ok
              (ArchiveWorld db_old_and_recent [] []) "2025-09-03T09:00:00" 1 1 2 3 Hok)
    as (_ & Hseq & _).
  unfold insert_fatigue. rewrite Hseq. reflexivity.
Defined.

(** ** The bus shared by the two workers *)

Lemma bus_step_inv (s : bus_system) (a : bus_action) :
  bus_inv s → bus_inv (bus_step s a).
Proof.
  intros Hinv. destruct a as [w device speed f|w f]; cbn.
  - destruct (inside w s) eqn:Hin; [done|].
    unfold __enter__, lock_acquire.
    destruct (_lock (sys_bus s)) as [holder|] eqn:Hlock; [done|].
    assert (Hnone : ∀ w', inside w' s = false).
    { intros w'. destruct (inside w' s) eqn:E; [|done]. apply Hinv in E. congruence. }
    pose proof (Hnone LoRaWorker) as Hl. pose proof (Hnone nRFWorker) as Hn.
    cbn in Hl, Hn.
    destruct (open_raises f); [|destruct (speed_raises f)];
      intros w'; destruct w, w'; cbn; rewrite ?Hl, ?Hn; naive_solver.
  - destruct (inside w s) eqn:Hin; [|done].
    apply Hinv in Hin.
    assert (Hother : ∀ w', w' ≠ w → inside w' s = false).
    { intros w' Hne. destruct (inside w' s) eqn:E; [|done]. apply Hinv in E. congruence. }
    unfold __exit__, lock_release.
    destruct w.
    + pose proof (Hother nRFWorker ltac:(done)) as Ho. cbn in Ho.
      intros w'. destruct (close_raises f), w'; cbn; rewrite ?Ho; naive_solver.
    + pose proof (Hother LoRaWorker ltac:(done)) as Ho. cbn in Ho.
      intros w'. destruct (close_raises f), w'; cbn; rewrite ?Ho; naive_solver.
Qed.

(** X14: whatever the order in which the two workers enter and leave
    their [with] blocks, and whatever fails on the way, a worker is inside
    its block exactly when it holds the lock; so the two workers are never
    inside at the same time. *)
Theorem at_most_one_worker_inside (actions : list bus_action) :
  let s := bus_run actions bus_start in
  (∀ w, inside w s = true ↔ _lock (sys_bus s) = Some w)
  ∧ ¬ (lora_inside s = true ∧ nrf_inside s = true).
Proof.
  assert (Hinv : ∀ s, bus_inv s → bus_inv (bus_run actions s)).
  { induction actions as [|a actions IH]; intros s Hs; [done|].
    cbn. apply IH. by apply bus_step_inv. }
  intros s. assert (Hs : bus_inv s).
  { apply Hinv. intros w. destruct w; cbn; naive_solver. }
  split; [exact Hs|].
  intros [Hl Hn]. apply (Hs LoRaWorker) in Hl. apply (Hs nRFWorker) in Hn. congruence.
Qed.

(** ** More on the radio workers *)

(** X15: after a wake-up the LoRa worker counts its radio as set up only
    if the device was opened at the requested speed, the radio was set up
    before or its setup succeeded, and neither the flag read nor the
    re-arming of the receiver raised; when the device cannot be opened
    the queue is untouched and the setup is redone at the next wake-up. *)
Theorem lora_failure_forces_resetup (f : spi_faults) (radio : lora_radio)
    (b b' : SPILock) (t t' : worker_thread) :
  lora_wakeup f radio b t = Some (b', t') →
  (is_setup t' = true →
     open_raises f = false ∧ speed_raises f = false
     ∧ (is_setup t = true ∨ setup_lora radio = true)
     ∧ (∃ flag, getIrqFlags radio = Ok flag)
     ∧ setRx radio = Ok tt)
  ∧ (open_raises f = true ∨ speed_raises f = true →
       is_setup t' = false ∧ data_queue t' = data_queue t).
Proof.
  unfold lora_wakeup, with_acquire, __enter__, lock_acquire, lora_body, put_or_drop,
    worker_except.
  intros H. repeat case_match; simplify_eq; cbn in *.
  all: repeat match goal with u : unit |- _ => destruct u end.
  all: try naive_solver.
  all: destruct (setup_lora radio); naive_solver.
Qed.

Lemma lora_failure_forces_resetup_witness :
  ∃ b' t',
    lora_wakeup (SpiFaults true false false) lora_has_packet free_bus
      (Worker (Queue [] 100) true []) = Some (b', t')
    ∧ is_setup t' = false ∧ data_queue t' = Queue [] 100.
Proof.
  eexists _, _. split; [reflexivity|].
  destruct (lora_failure_forces_resetup (SpiFaults true false false) lora_has_packet
              free_bus _ (Worker (Queue [] 100) true []) _ eq_refl) as [_ H].
  apply H. by left.
Defined.

Lemma nrf_drain_all (payloads : list bytes) (t : worker_thread) :
  (length (items (data_queue t)) + length payloads ≤ maxsize (data_queue t))%nat →
  nrf_drain (Ok <$> payloads) t
  = (Worker (Queue (items (data_queue t) ++ payloads) (maxsize (data_queue t)))
            (is_setup t) (worker_log t),
     Enqueued nRFWorker <$> payloads, Ok true).
Proof.
  revert t. induction payloads as [|p ps IH]; intros [[its cap] su lg] Hroom; cbn in *.
  { by rewrite app_nil_r. }
  unfold put_or_drop, put_nowait, q_full. cbn.
  replace (cap <=? length its)%nat with false by (symmetry; apply Nat.leb_gt; lia).
  rewrite andb_false_r. rewrite IH by (cbn; rewrite length_app; cbn; lia).
  cbn. by rewrite <- app_assoc.
Qed.

(** X16: on a wake-up where the bus and the setup are fine and the queue
    has room, the nRF worker puts every packet the radio holds on the
    queue, in the order the radio hands them over, behind the packets
    already waiting. *)
Theorem nrf_drains_fifo_in_order (f : spi_faults) (setup : bool)
    (payloads : list bytes) (b : SPILock) (t : worker_thread) :
  _lock b = None →
  open_raises f = false → speed_raises f = false →
  is_setup t = true ∨ setup = true →
  (length (items (data_queue t)) + length payloads ≤ maxsize (data_queue t))%nat →
  ∃ b',
    nrf_wakeup f (NrfRadio setup (Ok <$> payloads)) b t
    = Some (b', Worker (Queue (items (data_queue t) ++ payloads) (maxsize (data_queue t)))
                       true (worker_log t))
    ∧ _lock b' = None.
Proof.
  intros Hfree Ho Hs Hsetup Hroom.
  unfold nrf_wakeup, with_acquire, __enter__, lock_acquire, nrf_body.
  rewrite Hfree, Ho, Hs. cbn [rx_fifo setup_nrf].
  assert (Hset : (if is_setup t then true else setup) = true)
    by (destruct Hsetup as [-> | ->]; [done|by destruct (is_setup t)]).
  rewrite Hset. cbn [negb].
  rewrite nrf_drain_all by done. cbn.
  eexists. split; [done|]. unfold __exit__. by destruct (close_raises f).
Qed.

Lemma nrf_drains_fifo_in_order_witness :
  ∃ b',
    nrf_wakeup no_spi_fault (NrfRadio true (Ok <$> [scout_packet; scout_packet_2]))
      free_bus (Worker (Queue [scout_packet_2] 3) false [])
    = Some (b', Worker (Queue [scout_packet_2; scout_packet; scout_packet_2] 3) true [])
    ∧ _lock b' = None.
Proof.
  apply (nrf_drains_fifo_in_order no_spi_fault true [scout_packet; scout_packet_2]
           free_bus (Worker (Queue [scout_packet_2] 3) false []));
    [reflexivity | reflexivity | reflexivity | by right | cbn; lia].
Defined.

Lemma put_or_drop_bounded (who : worker) (payload : bytes) (t : worker_thread) :
  (0 < maxsize (data_queue t))%nat →
  (length (items (data_queue t)) ≤ maxsize (data_queue t))%nat →
  let t' := (put_or_drop who payload t).1 in
  maxsize (data_queue t') = maxsize (data_queue t)
  ∧ (length (items (data_queue t')) ≤ maxsize (data_queue t))%nat
  ∧ items (data_queue t) `prefix_of` items (data_queue t')
  ∧ is_setup t' = is_setup t.
Proof.
  intros Hpos Hle. unfold put_or_drop, put_nowait, q_full.
  destruct (Nat.leb_spec (maxsize (data_queue t)) (length (items (data_queue t))));
    destruct (Nat.ltb_spec 0 (maxsize (data_queue t))); try lia; cbn.
  - done.
  - rewrite length_app. cbn. repeat split; [lia|by apply prefix_app_r].
Qed.

Lemma nrf_drain_bounded (fifo : list (result bytes)) (t : worker_thread) :
  (0 < maxsize (data_queue t))%nat →
  (length (items (data_queue t)) ≤ maxsize (data_queue t))%nat →
  let t' := (nrf_drain fifo t).1.1 in
  maxsize (data_queue t') = maxsize (data_queue t)
  ∧ (length (items (data_queue t')) ≤ maxsize (data_queue t))%nat
  ∧ items (data_queue t) `prefix_of` items (data_queue t').
Proof.
  revert t. induction fifo as [|[payload|e] fifo IH]; intros t Hpos Hle; cbn; [done| |done].
  destruct (put_or_drop_bounded nRFWorker payload t Hpos Hle) as (Hm & Hl & Hp & _).
  destruct (put_or_drop nRFWorker payload t) as [t1 evs]. cbn in *.
  specialize (IH t1). rewrite Hm in IH. destruct (IH Hpos Hl) as (Hm' & Hl' & Hp').
  destruct (nrf_drain fifo t1) as [[t2 evs'] r]. cbn in *.
  split; [done|]. split; [done|]. by etrans.
Qed.

(** X17: a worker never fills its queue beyond its capacity and never
    removes or reorders what is waiting on it: after a wake-up of either
    worker the capacity is as before, the queue holds at most that many
    packets, and the packets that were waiting are still at its head. *)
Theorem worker_queue_stays_within_capacity (f : spi_faults) (lora : lora_radio)
    (nrf : nrf_radio) (b b' : SPILock) (t t' : worker_thread) :
  (0 < maxsize (data_queue t))%nat →
  (length (items (data_queue t)) ≤ maxsize (data_queue t))%nat →
  lora_wakeup f lora b t = Some (b', t') ∨ nrf_wakeup f nrf b t = Some (b', t') →
  maxsize (data_queue t') = maxsize (data_queue t)
  ∧ (length (items (data_queue t')) ≤ maxsize (data_queue t))%nat
  ∧ items (data_queue t) `prefix_of` items (data_queue t').
Proof.
  intros Hpos Hle [H|H].
  - unfold lora_wakeup, with_acquire, __enter__, lock_acquire, lora_body, worker_except in H.
    pose proof (λ p s, put_or_drop_bounded LoRaWorker p
                         (Worker (data_queue t) s (worker_log t)) Hpos Hle) as Hput.
    cbn in Hput.
    repeat case_match; simplify_eq; cbn; try done;
      match goal with
      | E : put_or_drop LoRaWorker ?p ?w = _ |- _ =>
          specialize (Hput p (is_setup w)); cbn in Hput; rewrite E in Hput;
          cbn in Hput; naive_solver
      end.
  - unfold nrf_wakeup, with_acquire, __enter__, lock_acquire, nrf_body, worker_except in H.
    pose proof (λ s, nrf_drain_bounded (rx_fifo nrf)
                       (Worker (data_queue t) s (worker_log t)) Hpos Hle) as Hdrain.
    cbn in Hdrain.
    repeat case_match; simplify_eq; cbn; try done;
      match goal with
      | E : nrf_drain _ ?w = _ |- _ =>
          specialize (Hdrain (is_setup w)); cbn in Hdrain; rewrite E in Hdrain;
          cbn in Hdrain; naive_solver
      end.
Qed.

Lemma worker_queue_stays_within_capacity_witness :
  ∃ b' t',
    nrf_wakeup no_spi_fault nrf_has_two_packets free_bus
      (Worker (Queue [scout_packet] 2) true []) = Some (b', t')
    ∧ (length (items (data_queue t')) ≤ 2)%nat.
Proof.
  eexists _, _. split; [reflexivity|].
  eapply (worker_queue_stays_within_capacity no_spi_fault lora_has_packet
            nrf_has_two_packets free_bus _ (Worker (Queue [scout_packet] 2) true []));
    [cbn; lia | cbn; lia | right; reflexivity].
Defined.

(** ** The watchdog *)

(** X18: a pass of the watchdog over threads that are all alive changes
    nothing.  When a thread is dead, shutdown is signalled and exactly one
    alert is put on the queue, naming the first dead thread in the order
    of the list; when the queue is full the alert is dropped and shutdown
    is signalled all the same. *)
Theorem watchdog_reports_first_dead_thread (threads : list (string * bool))
    (sv : supervisor) :
  (all_alive threads → watchdog_pass threads sv = sv)
  ∧ ∀ before name after,
      threads = before ++ (name, false) :: after → all_alive before →
      shutdown_event (watchdog_pass threads sv) = true
      ∧ (q_full (alert_queue sv) = false →
           items (alert_queue (watchdog_pass threads sv))
           = items (alert_queue sv) ++ [watchdog_alert name])
      ∧ (q_full (alert_queue sv) = true →
           alert_queue (watchdog_pass threads sv) = alert_queue sv).
Proof.
  split.
  - induction 1 as [|[name alive] threads Ha _ IH]; [done|].
    cbn in *. by rewrite Ha.
  - intros before name after -> Hb.
    induction Hb as [|[n alive] before Ha _ IH]; cbn in *.
    + unfold put_nowait. destruct (q_full (alert_queue sv)); cbn; done.
    + by rewrite Ha.
Qed.

Lemma watchdog_reports_first_dead_thread_witness :
  items (alert_queue
    (watchdog_pass [("LoRaWorker", true); ("nRFWorker", false);
                    ("DataProcessor", true); ("Communications", false)]
                   (Supervisor (Queue [] 50) false [])))
  = ["FATAL: Gateway software failure. Thread 'nRFWorker' terminated."].
Proof.
  destruct (watchdog_reports_first_dead_thread
              [("LoRaWorker", true); ("nRFWorker", false);
               ("DataProcessor", true); ("Communications", false)]
              (Supervisor (Queue [] 50) false [])) as [_ H].
  destruct (H [("LoRaWorker", true)] "nRFWorker"
              [("DataProcessor", true); ("Communications", false)] eq_refl)
    as (_ & Hq & _); [by repeat constructor|].
  rewrite Hq by done. reflexivity.
Defined.

(** ** Creating the schema *)

Lemma create_if_not_exists_idem {A} (e : A) (t : option A) :
  create_if_not_exists e (create_if_not_exists e t) = create_if_not_exists e t.
Proof. by destruct t. Qed.

(** X19: [setup_database] never loses data: whichever call fails, a
    table that existed keeps all its rows, and a node 1 that is already
    stored is not overwritten.  A run without failure leaves the three
    tables existing and node 1 stored, and running it again changes
    nothing. *)
Theorem setup_database_keeps_data_and_is_idempotent (fault : setup_fault) (f : db_file) :
  keeps_data f (setup_database fault f).1
  ∧ (∀ t v, nodes f = Some t → t !! 1 = Some v →
       ∃ t', nodes (setup_database fault f).1 = Some t' ∧ t' !! 1 = Some v)
  ∧ (let f' := (setup_database SetupOk f).1 in
     (∃ t, nodes f' = Some t ∧ is_Some (t !! 1))
     ∧ is_Some (fatigue_table f') ∧ is_Some (environment_table f')
     ∧ (setup_database SetupOk f').1 = f').
Proof.
  destruct f as [n ft et]. split; [|split].
  - unfold keeps_data, setup_database. cbn.
    repeat case_decide; cbn; (split; [|split]); try (intros ? ->; eauto; done).
    intros t ->. cbn. destruct (t !! 1) eqn:E; eexists; (split; [done|]); [done|].
    by apply insert_subseteq.
  - intros t v Hn Hv. cbn in Hn. subst n. unfold setup_database. cbn.
    repeat case_decide; cbn; rewrite ?Hv; eauto.
  - assert (Hrun : ∀ g, (setup_database SetupOk g).1
                        = DbFile (insert_sample_node (create_if_not_exists ∅ (nodes g)))
                                 (create_if_not_exists [] (fatigue_table g))
                                 (create_if_not_exists [] (environment_table g)))
      by done.
    cbn zeta. rewrite !Hrun. cbn [nodes fatigue_table environment_table].
    split; [|split; [|split]].
    + destruct n as [t|]; cbn.
      * destruct (t !! 1) eqn:E; eexists; (split; [done|]);
          [rewrite E; eauto | rewrite lookup_insert_eq; eauto].
      * eexists. split; [done|]. rewrite lookup_insert_eq. eauto.
    + destruct ft; cbn; eauto.
    + destruct et; cbn; eauto.
    + rewrite !create_if_not_exists_idem. f_equal.
      destruct n as [t|]; cbn.
      * destruct (t !! 1) eqn:E; cbn; [by rewrite E|]. by rewrite lookup_insert_eq.
      * rewrite lookup_empty. cbn. by rewrite lookup_insert_eq.
Qed.

(** ** What a response of the modem is made of *)

Lemma append_assoc (a b c : string) : (a +:+ b) +:+ c = a +:+ (b +:+ c).
Proof.
  induction a as [|x a IH]; [done|].
  change (String x ((a +:+ b) +:+ c) = String x (a +:+ (b +:+ c))). by rewrite IH.
Qed.

Lemma append_nil_l (s : string) : "" +:+ s = s.
Proof. reflexivity. Qed.

Lemma append_cons (x : ascii) (a s : string) : String x a +:+ s = String x (a +:+ s).
Proof. reflexivity. Qed.

Lemma append_nil_r (s : string) : s +:+ "" = s.
Proof. induction s as [|x s IH]; [done|]. by rewrite append_cons, IH. Qed.

Lemma prefix_append_cut (sub a rest : string) (c : ascii) :
  has_char c sub = false →
  String.prefix sub (a +:+ String c rest) = true → String.prefix sub a = true.
Proof.
  revert a. induction sub as [|d sub IH]; intros a Hc Hp; [by destruct a|].
  cbn in Hc. apply orb_false_iff in Hc as [Hcd Hc].
  destruct a as [|x a].
  - rewrite append_nil_l in Hp. cbn in Hp.
    destruct (ascii_dec d c) as [->|]; [|done]. by rewrite Ascii.eqb_refl in Hcd.
  - rewrite append_cons in Hp. cbn in *.
    destruct (ascii_dec d x); [|done]. by apply IH.
Qed.

Lemma str_in_prefix (sub s : string) : String.prefix sub s = true → str_in sub s = true.
Proof. intros H. destruct s; cbn in *; by rewrite H. Qed.

Lemma str_in_append_cut (sub a rest : string) (c : ascii) :
  has_char c sub = false →
  str_in sub (a +:+ String c rest) = true →
  str_in sub a = true ∨ str_in sub rest = true.
Proof.
  intros Hc. induction a as [|x a IH]; intros H.
  - rewrite append_nil_l in H.
    cbn [str_in] in H. apply orb_true_iff in H as [H|H]; [|by right].
    left. apply str_in_prefix. by apply (prefix_append_cut sub "" rest c).
  - rewrite append_cons in H.
    cbn [str_in] in H. apply orb_true_iff in H as [H|H].
    + left. apply str_in_prefix. by apply (prefix_append_cut sub (String x a) rest c).
    + destruct (IH H) as [Ha|Hr]; [|by right].
      left. cbn [str_in]. rewrite Ha. by rewrite orb_true_r.
Qed.

Lemma str_in_join_lines (sub : string) (lines : list string) :
  has_char "010" sub = false → str_in sub "" = false →
  str_in sub (join_lines lines) = true →
  ∃ line, line ∈ lines ∧ str_in sub line = true.
Proof.
  intros Hc Hne. induction lines as [|l lines IH]; intros H;
    [change (join_lines []) with "" in H; congruence|].
  change (join_lines (l :: lines)) with (l +:+ String "010" (join_lines lines)) in H.
  apply str_in_append_cut in H as [H|H]; [| |done].
  - exists l. split; [by left|done].
  - destruct (IH H) as (line & Hin & Hl). exists line. split; [by right|done].
Qed.

Lemma read_until_response (expected : string) (rxs : list rx) (acc : string) :
  ∃ consumed,
    (read_until expected rxs acc).1.2 = acc +:+ join_lines consumed
    ∧ (∀ line, line ∈ consumed → Line line ∈ rxs)
    ∧ (read_until expected rxs acc).2 `suffix_of` rxs
    ∧ ((read_until expected rxs acc).1.1 = true →
         ∃ line, line ∈ consumed ∧ str_in expected line = true).
Proof.
  revert acc. induction rxs as [|[line|] rxs IH]; intros acc.
  - exists []. cbn [read_until fst snd]. change (join_lines []) with "".
    split; [by rewrite append_nil_r|]. split; [set_solver|done].
  - cbn [read_until]. destruct (String.eqb line "").
    { destruct (IH acc) as (consumed & Hr & Hin & Hs & Hok).
      exists consumed. split; [done|]. split; [intros l Hl; right; auto|].
      split; [by apply suffix_cons_r|done]. }
    destruct (str_in expected line) eqn:Hexp.
    + exists [line]. cbn. split; [done|]. split; [intros l ->%list_elem_of_singleton; by left|].
      split; [by apply suffix_cons_r|]. intros _. exists line. split; [by left|done].
    + destruct (IH (acc +:+ line +:+ LF)) as (consumed & Hr & Hin & Hs & Hok).
      exists (line :: consumed). split.
      { rewrite Hr. change (join_lines (line :: consumed))
          with (line +:+ LF +:+ join_lines consumed).
        by rewrite !append_assoc. }
      split; [intros l [->|Hl]%elem_of_cons; [by left|right; auto]|].
      split; [by apply suffix_cons_r|].
      intros Ht. destruct (Hok Ht) as (l & Hl & He). exists l. split; [by right|done].
  - exists []. cbn [read_until fst snd]. change (join_lines []) with "".
    split; [by rewrite append_nil_r|].
    split; [set_solver|]. split; [by apply suffix_cons_r|done].
Qed.

Lemma send_at_command_inc (command expected : string) (m : SIM800LManager) :
  inc (send_at_command command expected m).2 `suffix_of` inc m.
Proof.
  unfold send_at_command, inc. destruct (ser m) as [port|] eqn:Hp; [|cbn; by rewrite Hp].
  destruct (read_until_response expected (incoming port) "") as (_ & _ & _ & Hs & _).
  destruct (read_until _ _ _) as [r rest]. done.
Qed.

Lemma send_at_command_lines (command expected sub : string) (m : SIM800LManager) :
  (send_at_command command expected m).1.1 = true →
  (∃ line, Line line ∈ inc m ∧ str_in expected line = true)
  ∧ (has_char "010" sub = false → str_in sub "" = false →
     str_in sub (send_at_command command expected m).1.2 = true →
     ∃ line, Line line ∈ inc m ∧ str_in sub line = true).
Proof.
  unfold send_at_command, inc. destruct (ser m) as [port|]; [|done].
  destruct (read_until_response expected (incoming port) "") as (consumed & Hr & Hin & _ & Hok).
  destruct (read_until _ _ _) as [[ok resp] rest]. cbn in *. intros ->. split.
  - destruct (Hok eq_refl) as (l & Hl & He). eauto.
  - intros Hc Hne Hsub. subst resp.
    destruct (str_in_join_lines sub consumed Hc Hne Hsub) as (l & Hl & Hs). eauto.
Qed.

Lemma ser_write_inc (data : string) (m m' : SIM800LManager) :
  ser_write data m = Ok m' → inc m' = inc m.
Proof.
  unfold ser_write, inc. destruct (ser m) as [port|] eqn:Hp; [|done].
  intros [= <-]. done.
Qed.

(** One more command of a dialogue whose input is what is left of [base]. *)
Ltac next_reply base H :=
  match type of H with
  | context [send_at_command ?c ?e ?m] =>
      match goal with
      | Hs : inc m `suffix_of` base |- _ =>
          let Hs' := fresh "Hs" in
          pose proof (send_at_command_inc c e m) as Hs';
          destruct (send_at_command c e m) as [[? ?] ?]; cbn [fst snd] in Hs';
          assert (inc _ `suffix_of` base) by (etrans; [exact Hs'|exact Hs]);
          clear Hs Hs'
      end
  end.

Lemma http_post_dialogue_true (payload : string) (m m' : SIM800LManager) :
  http_post_dialogue payload m = (Ok true, m') →
  ∃ action line,
    Line action ∈ inc m ∧ str_in "+HTTPACTION" action = true
    ∧ Line line ∈ inc m ∧ str_in "1,200" line = true.
Proof.
  intros H. assert (Hs : inc m `suffix_of` inc m) by done.
  revert H Hs. generalize (inc m) at 2 3 4. intros base H Hs.
  unfold http_post_dialogue in H.
  assert (Hfinish : ∀ m1 m2,
    inc m1 `suffix_of` base →
    (let '((success, response), m3) :=
       send_at_command "AT+HTTPACTION=1" "+HTTPACTION" m1 in
     if success && str_in "1,200" response then (Ok true, m3) else (Ok false, m3))
    = (Ok true, m2) →
    ∃ action line, Line action ∈ base ∧ str_in "+HTTPACTION" action = true
                   ∧ Line line ∈ base ∧ str_in "1,200" line = true).
  { intros m1 m2 Hs1 Hlast.
    pose proof (send_at_command_lines "AT+HTTPACTION=1" "+HTTPACTION" "1,200" m1) as Hl.
    destruct (send_at_command _ _ m1) as [[success response] m3]. cbn [fst snd] in Hl.
    destruct success; [|done]. destruct (str_in "1,200" response) eqn:E; [|done].
    destruct (Hl eq_refl) as [(a & Ha & Hae) Hsub].
    destruct (Hsub eq_refl eq_refl eq_refl) as (l & Hlin & Hle).
    exists a, l. split; [by eapply elem_of_suffix|]. split; [done|].
    split; [by eapply elem_of_suffix|done]. }
  next_reply base H.
  destruct (str_in "+CREG: 0,1" _).
  - cbn [negb] in H. do 7 next_reply base H.
    destruct (ser_write payload _) as [m9|e] eqn:Hw; [|done].
    apply ser_write_inc in Hw.
    match goal with Hs : inc _ `suffix_of` base |- _ => rewrite <- Hw in Hs end.
    next_reply base H. destruct (negb _); [done|]. eauto.
  - next_reply base H. destruct (str_in "+CREG: 0,5" _); cbn [negb] in H; [|done].
    do 7 next_reply base H.
    destruct (ser_write payload _) as [m9|e] eqn:Hw; [|done].
    apply ser_write_inc in Hw.
    match goal with Hs : inc _ `suffix_of` base |- _ => rewrite <- Hw in Hs end.
    next_reply base H. destruct (negb _); [done|]. eauto.
Qed.

(** X20: an upload changes the store only if, after the commands of the
    dialogue, the modem has sent a line containing [+HTTPACTION] and a
    line containing [1,200]: without such lines from the modem no row is
    marked as sent. *)
Theorem rows_marked_only_after_1_200_line (json_dumps : list payload_item → string)
    (fault : db_fault) (db : database) (self : CommunicationsThread) :
  (forward_data_to_cloud json_dumps fault db self).1.1 ≠ db →
  ∃ m action line,
    sim_manager self = Some m
    ∧ Line action ∈ inc m ∧ str_in "+HTTPACTION" action = true
    ∧ Line line ∈ inc m ∧ str_in "1,200" line = true.
Proof.
  intros Hne.
  destruct (forward_updates_only_after_true json_dumps fault db self)
    as [?|((payload & m' & Hpost) & _)]; [done|].
  unfold _http_post_payload in Hpost.
  destruct (sim_manager self) as [m|]; [|done].
  destruct (http_post_dialogue payload m) as [r m1] eqn:Hd. simplify_eq.
  destruct (http_post_dialogue_true _ _ _ Hd) as (a & l & ?). eauto.
Qed.

Lemma rows_marked_only_after_1_200_line_witness :
  ∃ m action line,
    sim_manager (comm_with_modem "+HTTPACTION: 1,200,0") = Some m
    ∧ Line action ∈ inc m ∧ str_in "+HTTPACTION" action = true
    ∧ Line line ∈ inc m ∧ str_in "1,200" line = true.
Proof.
  apply (rows_marked_only_after_1_200_line (λ _, "[]") NoFault db_three_unsent).
  vm_compute. discriminate.
Defined.

(** ** Setting the modem up and sending an SMS *)

Lemma send_at_command_response_lines (command expected sub : string)
    (m : SIM800LManager) :
  has_port m → has_char "010" sub = false → str_in sub "" = false →
  str_in sub (send_at_command command expected m).1.2 = true →
  ∃ line, Line line ∈ inc m ∧ str_in sub line = true.
Proof.
  intros [port Hp] Hc Hne. unfold send_at_command, inc. rewrite Hp.
  destruct (read_until_response expected (incoming port) "") as (consumed & Hr & Hin & _).
  destruct (read_until _ _ _) as [[ok resp] rest]. cbn in *. subst resp.
  intros Hsub. destruct (str_in_join_lines sub consumed Hc Hne Hsub) as (l & Hl & Hs).
  eauto.
Qed.

(** X22: [setup_sms] reports the modem ready only if a serial port is
    there, kept from before or newly opened, and the modem has answered on
    it with a line containing [OK] and a line containing
    [+CPIN: READY]. *)
Theorem sms_ready_needs_sim_ready (open_port : option serial)
    (self : CommunicationsThread) :
  (setup_sms open_port self).1 = true →
  ∃ port ok_line pin_line,
    (sim_manager self = Some (Manager (Some port)) ∨ open_port = Some port)
    ∧ Line ok_line ∈ incoming port ∧ str_in "OK" ok_line = true
    ∧ Line pin_line ∈ incoming port ∧ str_in "+CPIN: READY" pin_line = true.
Proof.
  unfold setup_sms.
  set (m0 := match sim_manager self with
             | Some (Manager (Some port)) => Manager (Some port)
             | _ => Manager open_port
             end).
  assert (Hm0 : ∀ port, ser m0 = Some port →
            sim_manager self = Some (Manager (Some port)) ∨ open_port = Some port).
  { intros port. subst m0. destruct (sim_manager self) as [[[p|]]|]; cbn; naive_solver. }
  destruct (ser m0) as [port|] eqn:Hport; [|done]. specialize (Hm0 port eq_refl).
  assert (Hinc : inc m0 = incoming port) by (unfold inc; by rewrite Hport).
  assert (Hp0 : has_port m0) by (by exists port).
  pose proof (send_at_command_lines "AT" "OK" "" m0) as Hat.
  pose proof (send_at_command_inc "AT" "OK" m0) as Hs1.
  pose proof (send_at_command_out "AT" "OK" m0 Hp0) as [Hp1 _].
  destruct (send_at_command "AT" "OK" m0) as [[at_ok ?] m1]. cbn [fst snd] in *.
  destruct at_ok; cbn [negb]; [|done].
  destruct (Hat eq_refl) as [(ok_line & Hok & Hoks) _].
  pose proof (send_at_command_response_lines "AT+CPIN?" "OK" "+CPIN: READY" m1 Hp1
                eq_refl eq_refl) as Hpin.
  destruct (send_at_command "AT+CPIN?" "OK" m1) as [[? cpin] m2]. cbn [fst snd] in *.
  destruct (str_in "+CPIN: READY" cpin); cbn [negb]; [|done].
  destruct (Hpin eq_refl) as (pin_line & Hpl & Hpls).
  intros _. exists port, ok_line, pin_line. rewrite <- Hinc.
  split; [done|]. split; [done|]. split; [done|].
  split; [by eapply elem_of_suffix|done].
Qed.

Lemma sms_ready_needs_sim_ready_witness :
  ∃ port ok_line pin_line,
    (@None SIM800LManager = Some (Manager (Some port))
     ∨ Some (Serial [Line "OK"; Line "+CPIN: READY"; Line "OK"; Line "OK"] []) = Some port)
    ∧ Line ok_line ∈ incoming port ∧ str_in "OK" ok_line = true
    ∧ Line pin_line ∈ incoming port ∧ str_in "+CPIN: READY" pin_line = true.
Proof.
  apply (sms_ready_needs_sim_ready
           (Some (Serial [Line "OK"; Line "+CPIN: READY"; Line "OK"; Line "OK"] []))
           (Communications None (Queue [] 50) [])).
  reflexivity.
Defined.

(** X23: [send_sms] writes the text of the message only after the modem
    has answered the [AT+CMGS] command with a line containing the prompt
    [>]: it then writes the text, the end-of-message byte and an empty
    command, in this order; without the prompt it returns [False] having
    written the command alone. *)
Theorem sms_text_only_after_prompt (number message : string)
    (self : CommunicationsThread) (m : SIM800LManager) :
  sim_manager self = Some m → has_port m →
  ∃ m', sim_manager (send_sms number message self).2 = Some m'
    ∧ ((∃ prompt, Line prompt ∈ inc m ∧ str_in ">" prompt = true)
       ∧ (∃ sent, (send_sms number message self).1 = Ok sent)
       ∧ out m' = out m ++ [("AT+CMGS=" +:+ DQ +:+ number +:+ DQ) +:+ CRLF;
                            message; CTRL_Z; "" +:+ CRLF]
       ∨ (send_sms number message self).1 = Ok false
         ∧ out m' = out m ++ [("AT+CMGS=" +:+ DQ +:+ number +:+ DQ) +:+ CRLF]).
Proof.
  intros Hm Hp. unfold send_sms. rewrite Hm.
  pose proof (send_at_command_lines ("AT+CMGS=" +:+ DQ +:+ number +:+ DQ) ">" "" m) as Hl.
  pose proof (send_at_command_out ("AT+CMGS=" +:+ DQ +:+ number +:+ DQ) ">" m Hp)
    as [Hp1 Ho1].
  destruct (send_at_command _ ">" m) as [[success ?] m1]. cbn [fst snd] in *.
  destruct success.
  - destruct (Hl eq_refl) as [Hprompt _].
    destruct (ser_write_out message m1 Hp1) as (m2 & -> & Hp2 & Ho2).
    destruct (ser_write_out CTRL_Z m2 Hp2) as (m3 & -> & Hp3 & Ho3).
    pose proof (send_at_command_out "" "OK" m3 Hp3) as [Hp4 Ho4].
    destruct (send_at_command "" "OK" m3) as [[final ?] m4]. cbn [fst snd] in *.
    exists m4. split; [by destruct final|]. left. split; [done|].
    split; [destruct final; eauto|].
    rewrite Ho4, Ho3, Ho2, Ho1. by rewrite <- !app_assoc.
  - exists m1. split; [done|]. right. done.
Qed.

Lemma sms_text_only_after_prompt_witness :
  ∃ m', sim_manager (send_sms ALERT_RECIPIENT_NUMBER "N1 val20 thr15"
                       (Communications (Some (Manager (Some (Serial [Line "ERROR"; Deadline] []))))
                                       (Queue [] 50) [])).2 = Some m'
    ∧ out m' = [("AT+CMGS=" +:+ DQ +:+ ALERT_RECIPIENT_NUMBER +:+ DQ) +:+ CRLF].
Proof.
  destruct (sms_text_only_after_prompt ALERT_RECIPIENT_NUMBER "N1 val20 thr15"
              (Communications (Some (Manager (Some (Serial [Line "ERROR"; Deadline] []))))
                              (Queue [] 50) [])
              (Manager (Some (Serial [Line "ERROR"; Deadline] []))) eq_refl)
    as (m' & Hm & [(_ & _ & Ho)|[_ Ho]]); [by eexists| |].
  - exfalso. apply (f_equal length) in Ho. revert Hm Ho. vm_compute.
    intros [= <-]. vm_compute. discriminate.
  - exists m'. split; [exact Hm | exact Ho].
Defined.

(** ** Capacities of the three queues *)

Lemma put_nowait_within {A} (q q' : pqueue A) (x : A) :
  within_capacity q → put_nowait q x = Ok q' →
  within_capacity q' ∧ maxsize q' = maxsize q.
Proof.
  intros [Hpos Hle]. unfold put_nowait, q_full.
  destruct (Nat.ltb_spec 0 (maxsize q)); [|lia].
  destruct (Nat.leb_spec (maxsize q) (length (items q))); cbn; [done|].
  intros [= <-]. unfold within_capacity. cbn. rewrite length_app. cbn. split; [lia|done].
Qed.

Lemma worker_put_within {A} (q : pqueue A) (x : A) :
  within_capacity q →
  within_capacity (worker_put q x) ∧ maxsize (worker_put q x) = maxsize q.
Proof.
  intros Hq. unfold worker_put. destruct (put_nowait q x) eqn:E; [|done].
  by eapply put_nowait_within.
Qed.

Lemma check_rules_from_within (rs : list rule) (node : Z) (data : gmap string Z)
    (self : processor) :
  within_capacity (alert_q self) →
  within_capacity (alert_q (check_rules_from rs node data self).1)
  ∧ maxsize (alert_q (check_rules_from rs node data self).1) = maxsize (alert_q self).
Proof.
  revert self. induction rs as [|r rs IH]; intros self Hq; [done|].
  cbn [check_rules_from].
  repeat case_match; try (by apply IH); try done.
  - destruct (put_nowait_within _ _ _ Hq ltac:(eassumption)) as [Hq' Hm].
    match goal with
    | |- context [check_rules_from rs node data ?s] =>
        destruct (IH s) as [Hw1 Hw2]; [done|]
    end.
    cbn in Hw2. split; [done|]. by rewrite Hw2.
  - apply (IH (logging ERROR "Alert queue is full. Cannot send new alert." self) Hq).
Qed.

Lemma process_lora_within (now : string) (fault : db_fault) (packet : bytes)
    (self : processor) :
  within_capacity (alert_q self) →
  within_capacity (alert_q (_process_lora_packet now fault packet self).1)
  ∧ maxsize (alert_q (_process_lora_packet now fault packet self).1)
    = maxsize (alert_q self).
Proof.
  intros Hq. unfold _process_lora_packet, _check_alerting_rules, except_sqlite_error.
  repeat case_match; try done.
  match goal with
  | |- context [check_rules_from ?rs ?n ?d ?s] =>
      destruct (check_rules_from_within rs n d s) as [Hw1 Hw2]; [done|]
  end.
  done.
Qed.

Lemma tick_queues_ok (now : string) (fault : db_fault) (t : thread) :
  queues_ok (self t) → queues_ok (self (tick now fault t)).
Proof.
  intros (Hh & Hl & Ha). unfold tick, q_empty, get_nowait. destruct (pos t).
  - destruct (items (high_prio_q (self t))) as [|p rest] eqn:Hq; [done|].
    set (s0 := set_high_prio_q (Queue rest (maxsize (high_prio_q (self t)))) (self t)).
    pose proof (process_lora_frame now fault p s0) as (Hfh & Hfl & _).
    pose proof (process_lora_within now fault p s0 Ha) as [Hwa _].
    assert (Hrest : within_capacity (high_prio_q s0)).
    { destruct Hh as [Hpos Hle]. rewrite Hq in Hle. split; cbn in *; lia. }
    destruct (_process_lora_packet now fault p s0) as [s [[]|e]]; cbn in *;
      unfold queues_ok; cbn; rewrite Hfh, Hfl; done.
  - destruct (items (low_prio_q (self t))) as [|p rest] eqn:Hq; [done|].
    set (s0 := set_low_prio_q (Queue rest (maxsize (low_prio_q (self t)))) (self t)).
    pose proof (process_nrf_frame now fault p s0) as (Hfh & Hfl & _ & Hfa).
    assert (Hrest : within_capacity (low_prio_q s0)).
    { destruct Hl as [Hpos Hle]. rewrite Hq in Hle. split; cbn in *; lia. }
    destruct (_process_nrf_packet now fault p s0) as [s [[]|e]]; cbn in *;
      unfold queues_ok; cbn; rewrite Hfh, Hfl, Hfa; done.
Qed.

(** X24: whatever the workers put and whatever the processor handles, in
    any order, and whichever store calls fail, the high-priority, the
    low-priority and the alert queue never hold more than their
    capacity. *)
Theorem queues_stay_within_capacity (schedule : list action) (t : thread) :
  queues_ok (self t) → queues_ok (self (run schedule t)).
Proof.
  revert t. induction schedule as [|a schedule IH]; intros t Hok; [done|].
  cbn. apply IH. destruct a as [now fault|p|p]; cbn.
  - by apply tick_queues_ok.
  - destruct Hok as (Hh & Hl & Ha). split; [|done].
    by apply worker_put_within.
  - destruct Hok as (Hh & Hl & Ha). split; [done|]. split; [|done].
    by apply worker_put_within.
Qed.

Lemma queues_stay_within_capacity_witness :
  queues_ok (self (run late_high_schedule thread_two_low)).
Proof.
  apply queues_stay_within_capacity.
  repeat split; cbn; lia.
Defined.
